(** * pulsar: Future / Task state machines and the Event dispatch layer

    A shallow embedding of

    - [pulsar/async/fallbacks/asyncio.py]: [BaseEventLoop.call_soon],
      [Future] and [Task.cancel];
    - [pulsar/async/events.py]: [Event], [OneTime] and [EventHandler].

    Python objects live in a store addressed by references, so that aliasing
    (a Task and its waiter, two handlers sharing a dispatcher) is visible.
    Methods are state transformers in a small state-and-exception monad. *)

From stdpp Require Import gmap strings list fin_maps.
From Stdlib Require Import ZArith Lia.

(** ** Values, exceptions and method results shared by both modules *)

Definition addr := nat.

(** Python values as far as the two modules look at them. *)
Inductive pyval :=
| VNone
| VBool (b : bool)
| VInt (z : Z)
| VStr (s : string)
| VGenerator (g : nat)
| VRef (a : addr).

(** Exception classes.  [Error], [CancelledError], [TimeoutError] and
    [InvalidStateError] are the classes of asyncio.py; [ValueError],
    [AssertionError] and [AttributeError] are builtins; [UserException] stands
    for any other subclass of [Exception]; [BaseExc] for a [BaseException]
    that is not an [Exception] (such as [_StopError]).  Messages are not
    modelled. *)
Inductive exn :=
| Error
| CancelledError
| TimeoutError
| InvalidStateError
| ValueError
| AssertionError
| AttributeError
| UserException (name : string)
| BaseExc (name : string).

(** [isinstance(e, Exception)], what [except Exception] catches. *)
Definition is_Exception (e : exn) : bool :=
  match e with
  | BaseExc _ => false
  | _ => true
  end.

(** The outcome of a call: a value, a raised exception, or a recursion that
    did not end within the fuel given to the model. *)
Inductive res (A : Type) :=
| Ok (a : A)
| Raise (e : exn)
| OutOfFuel.
Arguments Ok {A} a.
Arguments Raise {A} e.
Arguments OutOfFuel {A}.

(** ** asyncio.py *)

Module Asyncio.

(** A callable handed to the loop or to a Future: a user callable, or the
    bound method [activate] of the [_TracebackLogger] built for an exception. *)
Inductive callback :=
| Fn (id : nat)
| TbLoggerActivate (e : exn).

(** [Handle] / [TimerHandle]. *)
Record Handle := TimerHandle {
  _when : option Z;
  _callback : callback;
  _args : list pyval;
  _cancelled : bool
}.

Inductive state := _PENDING | _CANCELLED | _FINISHED.

#[export] Instance state_eq_dec : EqDecision state.
Proof. solve_decision. Defined.

(** The instance attributes of a [Future]. [_exception = None] is Python's
    [None]; [_tb_logger] holds the exception the logger was built for. *)
Record Future := mkFuture {
  _state : state;
  _result : pyval;
  _exception : option exn;
  _loop : addr;
  _callbacks : list callback;
  _blocking : bool;
  _tb_logger : option exn
}.

(** The attributes [Task] adds to [Future]. *)
Record TaskAttrs := mkTask {
  _coro : nat;
  _fut_waiter : option addr;
  _must_cancel : bool
}.

Inductive obj :=
| OLoop (_ready : list Handle)
| OFuture (f : Future)
| OTask (f : Future) (t : TaskAttrs).

Abbreviation heap := (gmap addr obj).

(** *** The monad *)

Definition M (A : Type) : Type := heap -> res A * heap.

Definition ret {A} (a : A) : M A := fun h => (Ok a, h).

Definition raise {A} (e : exn) : M A := fun h => (Raise e, h).

Definition bind {A B} (m : M A) (k : A -> M B) : M B := fun h =>
  match m h with
  | (Ok a, h') => k a h'
  | (Raise e, h') => (Raise e, h')
  | (OutOfFuel, h') => (OutOfFuel, h')
  end.

Notation "'let*' x ':=' m 'in' k" := (bind m (fun x => k))
  (at level 10, x name, k at level 200).
Notation "m >> k" := (bind m (fun _ => k))
  (at level 100, right associativity).

(** [for x in l: body(x)] over a list that the body cannot reach. *)
Fixpoint for_each {A} (l : list A) (body : A -> M unit) : M unit :=
  match l with
  | [] => ret tt
  | x :: l' => body x >> for_each l' body
  end.

(** *** Attribute access *)

Definition fut_of (o : obj) : option Future :=
  match o with
  | OLoop _ => None
  | OFuture f => Some f
  | OTask f _ => Some f
  end.

Definition with_fut (o : obj) (f : Future) : obj :=
  match o with
  | OLoop r => OLoop r
  | OFuture _ => OFuture f
  | OTask _ t => OTask f t
  end.

(** Reading the Future attributes of [self]. *)
Definition get_fut (self : addr) : M Future := fun h =>
  match h !! self with
  | Some o =>
      match fut_of o with
      | Some f => (Ok f, h)
      | None => (Raise AttributeError, h)
      end
  | None => (Raise AttributeError, h)
  end.

(** Assigning Future attributes of [self]: [self.x = ...]. *)
Definition modify_fut (self : addr) (upd : Future -> Future) : M unit := fun h =>
  match h !! self with
  | Some o =>
      match fut_of o with
      | Some f => (Ok tt, <[self := with_fut o (upd f)]> h)
      | None => (Raise AttributeError, h)
      end
  | None => (Raise AttributeError, h)
  end.

Definition set_state (s : state) (f : Future) : Future :=
  mkFuture s (_result f) (_exception f) (_loop f) (_callbacks f)
           (_blocking f) (_tb_logger f).

Definition set_result_attr (v : pyval) (f : Future) : Future :=
  mkFuture (_state f) v (_exception f) (_loop f) (_callbacks f)
           (_blocking f) (_tb_logger f).

Definition set_exception_attr (e : option exn) (f : Future) : Future :=
  mkFuture (_state f) (_result f) e (_loop f) (_callbacks f)
           (_blocking f) (_tb_logger f).

Definition set_callbacks (cs : list callback) (f : Future) : Future :=
  mkFuture (_state f) (_result f) (_exception f) (_loop f) cs
           (_blocking f) (_tb_logger f).

Definition set_tb_logger (l : option exn) (f : Future) : Future :=
  mkFuture (_state f) (_result f) (_exception f) (_loop f) (_callbacks f)
           (_blocking f) l.

(** *** BaseEventLoop *)

(** [BaseEventLoop.call_soon]: build a [TimerHandle(None, callback, args)],
    append it to [_ready], return it. *)
Definition call_soon (loop : addr) (cb : callback) (args : list pyval)
  : M Handle := fun h =>
  match h !! loop with
  | Some (OLoop ready) =>
      let handle := TimerHandle None cb args false in
      (Ok handle, <[loop := OLoop (ready ++ [handle])]> h)
  | _ => (Raise AttributeError, h)
  end.

(** *** Future *)

(** [Future._schedule_callbacks]. *)
Definition _schedule_callbacks (self : addr) : M unit :=
  let* f := get_fut self in
  let callbacks := _callbacks f in
  match callbacks with
  | [] => ret tt
  | _ =>
      modify_fut self (set_callbacks []) >>
      for_each callbacks (fun cb =>
        let* f := get_fut self in
        call_soon (_loop f) cb [VRef self] >>
        ret tt)
  end.

(** [Future.cancel]. *)
Definition Future_cancel (self : addr) : M bool :=
  let* f := get_fut self in
  if decide (_state f ≠ _PENDING) then ret false
  else
    modify_fut self (set_state _CANCELLED) >>
    _schedule_callbacks self >>
    ret true.

(** [Future.cancelled]. *)
Definition cancelled (self : addr) : M bool :=
  let* f := get_fut self in
  ret (bool_decide (_state f = _CANCELLED)).

(** [Future.done]. *)
Definition done (self : addr) : M bool :=
  let* f := get_fut self in
  ret (bool_decide (_state f ≠ _PENDING)).

(** [Future.result]. [self._tb_logger.clear()] acts on the logger only; the
    attribute is then reset to [None]. *)
Definition result (self : addr) : M pyval :=
  let* f := get_fut self in
  if decide (_state f = _CANCELLED) then raise CancelledError
  else if decide (_state f ≠ _FINISHED) then raise InvalidStateError
  else
    (match _tb_logger f with
     | Some _ => modify_fut self (set_tb_logger None)
     | None => ret tt
     end) >>
    let* f := get_fut self in
    match _exception f with
    | Some e => raise e
    | None => ret (_result f)
    end.

(** [Future.exception]. *)
Definition exception (self : addr) : M (option exn) :=
  let* f := get_fut self in
  if decide (_state f = _CANCELLED) then raise CancelledError
  else if decide (_state f ≠ _FINISHED) then raise InvalidStateError
  else
    (match _tb_logger f with
     | Some _ => modify_fut self (set_tb_logger None)
     | None => ret tt
     end) >>
    let* f := get_fut self in
    ret (_exception f).

(** [Future.add_done_callback]. *)
Definition add_done_callback (self : addr) (fn : callback) : M unit :=
  let* f := get_fut self in
  if decide (_state f ≠ _PENDING) then
    call_soon (_loop f) fn [VRef self] >> ret tt
  else
    modify_fut self (fun f => set_callbacks (_callbacks f ++ [fn]) f).

(** [Future.set_result]. *)
Definition set_result (self : addr) (v : pyval) : M unit :=
  let* f := get_fut self in
  if decide (_state f ≠ _PENDING) then raise InvalidStateError
  else
    modify_fut self (set_result_attr v) >>
    modify_fut self (set_state _FINISHED) >>
    _schedule_callbacks self.

(** [Future.set_exception]. *)
Definition set_exception (self : addr) (e : exn) : M unit :=
  let* f := get_fut self in
  if decide (_state f ≠ _PENDING) then raise InvalidStateError
  else
    modify_fut self (set_exception_attr (Some e)) >>
    modify_fut self (set_state _FINISHED) >>
    _schedule_callbacks self >>
    modify_fut self (set_tb_logger (Some e)) >>
    let* f := get_fut self in
    call_soon (_loop f) (TbLoggerActivate e) [] >>
    ret tt.

(** [Future(loop=loop)]: a fresh object on which [__init__] has run.
    [get_event_loop] is the loop that the policy, which is not modelled, hands
    out when no loop is given. *)
Definition Future___init__ (get_event_loop : addr) (loop : option addr)
  : M addr := fun h =>
  let self := fresh (dom h) in
  let l := match loop with
           | None => get_event_loop
           | Some l => l
           end in
  (Ok self, <[self := OFuture (mkFuture _PENDING VNone None l [] false None)]> h).

(** *** Task *)

Definition get_task (self : addr) : M TaskAttrs := fun h =>
  match h !! self with
  | Some (OTask _ t) => (Ok t, h)
  | _ => (Raise AttributeError, h)
  end.

Definition modify_task (self : addr) (upd : TaskAttrs -> TaskAttrs) : M unit :=
  fun h =>
  match h !! self with
  | Some (OTask f t) => (Ok tt, <[self := OTask f (upd t)]> h)
  | _ => (Raise AttributeError, h)
  end.

Definition set_must_cancel (b : bool) (t : TaskAttrs) : TaskAttrs :=
  mkTask (_coro t) (_fut_waiter t) b.

(** [Task.cancel]. [waiter_cancel] is the call [self._fut_waiter.cancel()],
    resolved on the class of the waiter by [cancel] below. *)
Definition Task_cancel (waiter_cancel : addr -> M bool) (self : addr)
  : M bool :=
  (* the last two statements, reached when no waiter accepted *)
  let arm := modify_task self (set_must_cancel true) >> ret true in
  let* d := done self in
  if d then ret false
  else
    let* t := get_task self in
    match _fut_waiter t with
    | Some w =>
        let* accepted := waiter_cancel w in
        if accepted then
          (* Leave self._fut_waiter *)
          ret true
        else arm
    | None => arm
    end.

(** [x.cancel()]: [Task.cancel] on a Task, [Future.cancel] on a plain Future.
    A Task cancels its waiter, which may be a Task again: the recursion
    follows the chain of waiters and is bounded by [fuel]. *)
Fixpoint cancel (fuel : nat) (self : addr) : M bool :=
  match fuel with
  | O => fun h => (OutOfFuel, h)
  | S n => fun h =>
      match h !! self with
      | Some (OFuture _) => Future_cancel self h
      | Some (OTask _ _) => Task_cancel (cancel n) self h
      | _ => (Raise AttributeError, h)
      end
  end.

(** The handle [call_soon(callback, self)] puts on the ready queue. *)
Definition handle_for (self : addr) (cb : callback) : Handle :=
  TimerHandle None cb [VRef self] false.

(** *** Vocabulary of the statements *)

(** The Future a settlement leaves behind: the new state and outcome, and an
    emptied callback list. *)
Definition settled (st : state) (v : pyval) (e : option exn) (f : Future)
  : Future :=
  mkFuture st v e (_loop f) [] (_blocking f) (_tb_logger f).

(** The store after the Future at [self] settled as [f']: its callbacks sit at
    the tail of the ready queue of its loop, in registration order. *)
Definition after_settle (h : heap) (self : addr) (o : obj) (f f' : Future)
    (ready : list Handle) : heap :=
  <[_loop f := OLoop (ready ++ map (handle_for self) (_callbacks f))]>
    (<[self := with_fut o f']> h).

(** A small store: a loop at 0 and, at 1, a PENDING Future on that loop with
    two callbacks registered. *)
Definition fut0 : Future :=
  mkFuture _PENDING VNone None 0 [Fn 1; Fn 2] false None.

Definition h0 : heap :=
  <[0 := OLoop []]> (<[1 := OFuture fut0]> ∅).

(** The pending-cancel flag of the Task at [a], if [a] is a Task. *)
Definition must_cancel_at (h : heap) (a : addr) : option bool :=
  match h !! a with
  | Some (OTask _ t) => Some (_must_cancel t)
  | _ => None
  end.

(** [h0] with, at 2, a PENDING Task that waits on the Future at 1 and whose
    pending-cancel flag is not armed. *)
Definition h_task : heap :=
  <[2 := OTask (mkFuture _PENDING VNone None 0 [] false None)
                  (mkTask 0 (Some 1) false)]> h0.

(** *** More of Future and Task *)

#[export] Instance pyval_eq_dec : EqDecision pyval.
Proof. solve_decision. Defined.

#[export] Instance exn_eq_dec : EqDecision exn.
Proof. solve_decision. Defined.

#[export] Instance callback_eq_dec : EqDecision callback.
Proof. solve_decision. Defined.

(** [Future.remove_done_callback]. *)
Definition remove_done_callback (self : addr) (fn : callback) : M Z :=
  let* f := get_fut self in
  let filtered_callbacks :=
    List.filter (fun c => negb (bool_decide (c = fn))) (_callbacks f) in
  let removed_count :=
    (Z.of_nat (length (_callbacks f))
     - Z.of_nat (length filtered_callbacks))%Z in
  (if decide (removed_count = 0%Z) then ret tt
   else modify_fut self (set_callbacks filtered_callbacks)) >>
  ret removed_count.

(** [Future._copy_state].  [self.cancel()] is resolved on the class of
    [self], hence the fuel. *)
Definition _copy_state (fuel : nat) (self other : addr) : M unit :=
  let* other_done := done other in
  if negb other_done then raise AssertionError
  else
    let* self_cancelled := cancelled self in
    if self_cancelled then ret tt
    else
      let* self_done := done self in
      if self_done then raise AssertionError
      else
        let* other_cancelled := cancelled other in
        if other_cancelled then cancel fuel self >> ret tt
        else
          let* exc := exception other in
          match exc with
          | Some e => set_exception self e
          | None =>
              let* v := result other in
              set_result self v
          end.

(** [Task._wakeup].  [Task._step], the method that resumes the coroutine, is
    defined outside the two files embedded here: it is the parameter
    [_step self value exc]. *)
Definition _wakeup (_step : addr -> pyval -> option exn -> M unit)
    (self future : addr) : M unit := fun h =>
  match result future h with
  | (Ok value, h1) => _step self value None h1
  | (Raise exc, h1) =>
      if is_Exception exc then _step self VNone (Some exc) h1
      else (Raise exc, h1)
  | (OutOfFuel, h1) => (OutOfFuel, h1)
  end.

(** What a holder of a plain Future may call on it. *)
Inductive Future_op :=
| OpCancel
| OpSetResult (v : pyval)
| OpSetException (e : exn)
| OpAddDoneCallback (fn : callback)
| OpRemoveDoneCallback (fn : callback)
| OpResult
| OpException.

(** The store after one call, whatever it answers. *)
Definition run_Future_op (self : addr) (op : Future_op) (h : heap) : heap :=
  match op with
  | OpCancel => snd (Future_cancel self h)
  | OpSetResult v => snd (set_result self v h)
  | OpSetException e => snd (set_exception self e h)
  | OpAddDoneCallback fn => snd (add_done_callback self fn h)
  | OpRemoveDoneCallback fn => snd (remove_done_callback self fn h)
  | OpResult => snd (result self h)
  | OpException => snd (exception self h)
  end.

Definition run_Future_ops (self : addr) (ops : list Future_op) (h : heap)
  : heap := fold_left (fun h op => run_Future_op self op h) ops h.

(** The callbacks registered by a sequence of calls, in order. *)
Definition registered (ops : list Future_op) : list callback :=
  flat_map (fun op => match op with
                      | OpAddDoneCallback fn => [fn]
                      | _ => []
                      end) ops.

Definition is_removal (op : Future_op) : bool :=
  match op with
  | OpRemoveDoneCallback _ => true
  | _ => false
  end.

(** The callbacks of the handles that are to call back with the Future at
    [self], in queue order. *)
Definition callbacks_for (self : addr) (hs : list Handle) : list callback :=
  map _callback
      (List.filter (fun hd => bool_decide (_args hd = [VRef self])) hs).

(** A chain of PENDING Tasks, each waiting on the next, the last one waiting
    on [x]. *)
Fixpoint waits_on (h : heap) (chain : list addr) (x : addr) : Prop :=
  match chain with
  | [] => True
  | t :: rest =>
      (exists f ta,
         h !! t = Some (OTask f ta) /\ _state f = _PENDING /\
         _fut_waiter ta = Some (hd x rest)) /\
      waits_on h rest x
  end.

(** [h_task] with, at 3, a second PENDING Task that waits on the Task at 2. *)
Definition h_chain : heap :=
  <[3 := OTask (mkFuture _PENDING VNone None 0 [] false None)
               (mkTask 1 (Some 2) false)]> h_task.

(** What [result()] answers, read off the attributes. *)
Definition outcome_of (f : Future) : res pyval :=
  match _state f with
  | _CANCELLED => Raise CancelledError
  | _PENDING => Raise InvalidStateError
  | _FINISHED =>
      match _exception f with
      | Some e => Raise e
      | None => Ok (_result f)
      end
  end.

End Asyncio.

(** ** events.py *)

Module Events.

(** A callable bound to a dispatcher: a user callable, or the bound method
    [self._check] of a [OneTime], which [OneTime.fire] registers on the inner
    Deferred. *)
Inductive callback :=
| Fn (id : nat)
| OneTime__check (self : addr).

(** [**kwargs]. *)
Abbreviation kwargs := (list (string * pyval)).

(** What the module says to the logger (the error sink). *)
Inductive message :=
| ExceptionWhileFiringEvent (e : exn)      (* logger().exception(...) *)
| EventAlreadyFired (name : string)        (* logger().error(...) *)
| UnknownEvent (name : string) (self : addr). (* logger().warning(...) *)

(** What a method does to its collaborators, in order: calls of bound
    callables, records handed to the logger, generators handed to [async]. *)
Inductive action :=
| Called (hnd : callback) (arg : pyval) (kw : kwargs)
| Logged (m : message)
| Async (g : pyval).

(** Modelled from the spec: the state of the chainable settlement primitive
    [Deferred] of pulsar.async.defer, a module outside the two files embedded
    here.  It settles with a value once ([d_called], [d_result]), keeps the
    callback/errback pairs registered on it in a queue ([d_callbacks]) and may
    be chained to another primitive ([_chained_to]). *)
Record Deferred := mkDeferred {
  d_called : bool;
  d_result : pyval;
  d_callbacks : list (callback * option callback);
  _chained_to : option addr
}.

Definition new_Deferred : Deferred := mkDeferred false VNone [] None.

(** The objects of the module.  An [Event] has [_silenced], [_handlers] and
    [_fired]; a [OneTime] is a [Deferred] with [_silenced] and the inner
    Deferred [_events]; an [EventHandler] has the dict [_events]. *)
Inductive obj :=
| ODeferred (d : Deferred)
| OOneTime (_silenced : bool) (d : Deferred) (_events : addr)
| OEvent (_silenced : bool) (_handlers : list callback) (_fired : Z)
| OEventHandler (_events : gmap string addr).

Abbreviation heap := (gmap addr obj).

(** *** The monad: store, exceptions and the actions performed *)

Definition M (A : Type) : Type := heap -> res A * heap * list action.

Definition ret {A} (a : A) : M A := fun h => (Ok a, h, []).

Definition raise {A} (e : exn) : M A := fun h => (Raise e, h, []).

Definition out_of_fuel {A} : M A := fun h => (OutOfFuel, h, []).

Definition mbind {A B} (m : M A) (k : A -> M B) : M B := fun h =>
  match m h with
  | (Ok a, h1, t1) => let '(r, h2, t2) := k a h1 in (r, h2, t1 ++ t2)
  | (Raise e, h1, t1) => (Raise e, h1, t1)
  | (OutOfFuel, h1, t1) => (OutOfFuel, h1, t1)
  end.

Notation "'let*' x ':=' m 'in' k" := (mbind m (fun x => k))
  (at level 10, x name, k at level 200).
Notation "'let*' ' p ':=' m 'in' k" :=
  (mbind m (fun x => match x with p => k end))
  (at level 10, p pattern, k at level 200).
Notation "m >> k" := (mbind m (fun _ => k))
  (at level 100, right associativity).

(** [try: m  except <handled>: handler]. *)
Definition try_except {A} (m : M A) (handled : exn -> bool)
    (handler : exn -> M A) : M A := fun h =>
  match m h with
  | (Raise e, h1, t1) =>
      if handled e then let '(r, h2, t2) := handler e h1 in (r, h2, t1 ++ t2)
      else (Raise e, h1, t1)
  | other => other
  end.

Definition emit (a : action) : M unit := fun h => (Ok tt, h, [a]).

Definition lookup_obj (a : addr) : M obj := fun h =>
  match h !! a with
  | Some o => (Ok o, h, [])
  | None => (Raise AttributeError, h, [])
  end.

Definition store (a : addr) (o : obj) : M unit := fun h =>
  (Ok tt, <[a := o]> h, []).

(** A new object. *)
Definition alloc (o : obj) : M addr := fun h =>
  let a := fresh (dom h) in (Ok a, <[a := o]> h, []).

(** [for x in l: body(x)] over a list that the body cannot reach. *)
Fixpoint for_each {A} (l : list A) (body : A -> M unit) : M unit :=
  match l with
  | [] => ret tt
  | x :: l' => body x >> for_each l' body
  end.

(** *** Collaborators outside the module *)

(** [call hnd arg kw] is the call [hnd(arg, **kwargs)] of a bound callable:
    its outcome and what it does to the store.  [run_callbacks d] is the
    engine of [Deferred] that runs the callbacks queued on a settled [d] and
    gives the value the chain ends with.  [truth c] is the truth value of the
    object [c], as [if c:] tests it: true for a function, and for an object
    whatever its class says. *)
Class Env := {
  call : callback -> pyval -> kwargs -> heap -> res pyval * heap;
  run_callbacks : addr -> heap -> res pyval * heap;
  truth : callback -> bool
}.

Section WithEnv.
Context {env : Env}.

(** [hnd(arg, **kwargs)], recorded. *)
Definition invoke (hnd : callback) (arg : pyval) (kw : kwargs) : M pyval :=
  fun h => let '(r, h1) := call hnd arg kw h in (r, h1, [Called hnd arg kw]).

(** [inspect.isgenerator]. *)
Definition isgenerator (g : pyval) : bool :=
  match g with
  | VGenerator _ => true
  | _ => false
  end.

(** Modelled from the spec: [async(g)] of pulsar.async.defer admits the
    computation [g] to the Task scheduler without waiting for it. *)
Definition async (g : pyval) : M unit := emit (Async g).

(** *** Deferred *)

Definition deferred_of (o : obj) : option Deferred :=
  match o with
  | ODeferred d => Some d
  | OOneTime _ d _ => Some d
  | _ => None
  end.

Definition with_deferred (o : obj) (d : Deferred) : obj :=
  match o with
  | ODeferred _ => ODeferred d
  | OOneTime s _ e => OOneTime s d e
  | _ => o
  end.

Definition get_deferred (self : addr) : M Deferred :=
  let* o := lookup_obj self in
  match deferred_of o with
  | Some d => ret d
  | None => raise AttributeError
  end.

Definition modify_deferred (self : addr) (upd : Deferred -> Deferred)
  : M unit :=
  let* o := lookup_obj self in
  match deferred_of o with
  | Some d => store self (with_deferred o (upd d))
  | None => raise AttributeError
  end.

(** [isinstance(v, Deferred)]. *)
Definition isinstance_Deferred (v : pyval) : M bool := fun h =>
  (Ok match v with
      | VRef a =>
          match h !! a with
          | Some (ODeferred _) | Some (OOneTime _ _ _) => true
          | _ => false
          end
      | _ => false
      end, h, []).

(** Modelled from the spec: [Deferred.callback(result)] settles the
    primitive with a value exactly once.  A second settlement is rejected
    with [InvalidStateError]; otherwise the value is stored and the queued
    callbacks are run. *)
Definition Deferred_callback (self : addr) (result : pyval) : M pyval :=
  let* d := get_deferred self in
  if d_called d then raise InvalidStateError
  else
    modify_deferred self (fun d =>
      mkDeferred true result (d_callbacks d) (_chained_to d)) >>
    fun h => let '(r, h1) := run_callbacks self h in (r, h1, []).

(** Modelled from the spec: [Deferred.add_callback(callback, errback)]
    registers the pair at any time: it is queued, and on a primitive that has
    settled the queue is run at once.  The call is taken to return the
    primitive, which [OneTime.fire] hands on to its caller; nothing below
    depends on that value. *)
Definition Deferred_add_callback (self : addr) (cbk : callback)
    (errback : option callback) : M pyval :=
  let* d := get_deferred self in
  modify_deferred self (fun d =>
    mkDeferred (d_called d) (d_result d)
               (d_callbacks d ++ [(cbk, errback)]) (_chained_to d)) >>
  (if d_called d
   then fun h => let '(r, h1) := run_callbacks self h in (r, h1, [])
   else ret VNone) >>
  ret (VRef self).

(** *** Event *)

(** [Event()]. *)
Definition Event___init__ : M addr := alloc (OEvent false [] 0).

(** [Event.bind].  The test [if errback:] is on the truth value of the
    argument: [None] passes, and so does any other object that is false. *)
Definition Event_bind (self : addr) (cbk : callback)
    (errback : option callback) : M unit :=
  if match errback with
     | Some eb => truth eb
     | None => false
     end
  then raise ValueError
  else
    let* o := lookup_obj self in
    match o with
    | OEvent s hs n => store self (OEvent s (hs ++ [cbk]) n)
    | _ => raise AttributeError
    end.

(** [Event.fired]. *)
Definition Event_fired (self : addr) : M Z :=
  let* o := lookup_obj self in
  match o with
  | OEvent _ _ n => ret n
  | _ => raise AttributeError
  end.

(** The loop [for hnd in self._handlers] of [Event.fire].  The iterator reads
    the list in the store at each step, at index [i]: a handler that binds to
    this Event while it fires is picked up, so the loop is bounded by
    [fuel]. *)
Fixpoint fire_handlers (fuel : nat) (self : addr) (i : nat) (arg : pyval)
    (kw : kwargs) : M unit :=
  match fuel with
  | O => out_of_fuel
  | S n =>
      let* o := lookup_obj self in
      match o with
      | OEvent _ hs _ =>
          match hs !! i with
          | None => ret tt
          | Some hnd =>
              let* returned :=
                try_except
                  (let* g := invoke hnd arg kw in ret (Some g))
                  is_Exception
                  (fun e =>
                     emit (Logged (ExceptionWhileFiringEvent e)) >> ret None) in
              match returned with
              | Some g => if isgenerator g then async g else ret tt
              | None => ret tt
              end >>
              fire_handlers n self (S i) arg kw
          end
      | _ => raise AttributeError
      end
  end.

(** [Event.fire]. *)
Definition Event_fire (fuel : nat) (self : addr) (arg : pyval) (kw : kwargs)
  : M pyval :=
  let* o := lookup_obj self in
  match o with
  | OEvent silenced hs n =>
      if negb silenced then
        store self (OEvent silenced hs (n + 1)) >>
        fire_handlers fuel self 0 arg kw >>
        ret VNone
      else ret VNone
  | _ => raise AttributeError
  end.

(** [AbstractEvent.silence], inherited by [Event] and [OneTime]. *)
Definition silence (self : addr) : M unit :=
  let* o := lookup_obj self in
  match o with
  | OEvent _ hs n => store self (OEvent true hs n)
  | OOneTime _ d e => store self (OOneTime true d e)
  | _ => raise AttributeError
  end.

(** *** OneTime *)

(** [OneTime()]: [Deferred.__init__] on the new object, then
    [self._events = Deferred()].  Until that assignment the attribute
    [_events] does not exist; the 0 written first stands for that. *)
Definition OneTime___init__ : M addr :=
  let* self := alloc (OOneTime false new_Deferred 0) in
  let* events := alloc (ODeferred new_Deferred) in
  store self (OOneTime false new_Deferred events) >>
  ret self.

Definition get_OneTime (self : addr) : M (bool * Deferred * addr) :=
  let* o := lookup_obj self in
  match o with
  | OOneTime s d e => ret (s, d, e)
  | _ => raise AttributeError
  end.

(** [OneTime.bind]. *)
Definition OneTime_bind (self : addr) (cbk : callback)
    (errback : option callback) : M unit :=
  let* '(_, _, events) := get_OneTime self in
  Deferred_add_callback events cbk errback >>
  ret tt.

(** [OneTime.fire]. *)
Definition OneTime_fire (self : addr) (arg : pyval) (kw : kwargs) : M pyval :=
  let* '(silenced, _, events) := get_OneTime self in
  if negb silenced then
    match kw with
    | _ :: _ => raise ValueError
    | [] =>
        let* result := Deferred_callback events arg in
        let* is_deferred := isinstance_Deferred result in
        if is_deferred then
          Deferred_add_callback events (OneTime__check self)
                                (Some (OneTime__check self))
        else
          let* '(_, d, _) := get_OneTime self in
          match _chained_to d with
          | None => Deferred_callback self result
          | Some _ => ret VNone
          end
    end
  else ret VNone.

(** *** Method calls resolved on the class of the dispatcher *)

(** [event.bind(callback, errback)]. *)
Definition bind (event : addr) (cbk : callback) (errback : option callback)
  : M unit :=
  let* o := lookup_obj event in
  match o with
  | OEvent _ _ _ => Event_bind event cbk errback
  | OOneTime _ _ _ => OneTime_bind event cbk errback
  | _ => raise AttributeError
  end.

(** [event.fire(arg, **kwargs)]. *)
Definition fire (fuel : nat) (event : addr) (arg : pyval) (kw : kwargs)
  : M pyval :=
  let* o := lookup_obj event in
  match o with
  | OEvent _ _ _ => Event_fire fuel event arg kw
  | OOneTime _ _ _ => OneTime_fire event arg kw
  | _ => raise AttributeError
  end.

(** *** EventHandler *)

(** The names an instance starts from: the class-level tuple as it is, or,
    when the caller gives extra names (a non-empty iterable), the set of
    both. *)
Definition event_names (class_names : list string)
    (extra : option (list string)) : list string :=
  match extra with
  | Some ((_ :: _) as more) =>
      elements (list_to_set class_names ∪ list_to_set more : gset string)
  | _ => class_names
  end.

(** [dict((name, make()) for name in names)] and
    [events.update((name, make()) for name in names)]: one new dispatcher
    per name, stored under that name. *)
Fixpoint update_events (make : M addr) (names : list string)
    (events : gmap string addr) : M (gmap string addr) :=
  match names with
  | [] => ret events
  | name :: names' =>
      let* a := make in
      update_events make names' (<[name := a]> events)
  end.

Definition get_events (self : addr) : M (gmap string addr) :=
  let* o := lookup_obj self in
  match o with
  | OEventHandler events => ret events
  | _ => raise AttributeError
  end.

(** [EventHandler.__init__] on the object [self]. *)
Definition EventHandler___init__ (self : addr)
    (ONE_TIME_EVENTS MANY_TIMES_EVENTS : list string)
    (one_time_events many_times_events : option (list string)) : M unit :=
  let one := event_names ONE_TIME_EVENTS one_time_events in
  let* events := update_events OneTime___init__ one ∅ in
  let many := event_names MANY_TIMES_EVENTS many_times_events in
  let* events := update_events Event___init__ many events in
  store self (OEventHandler events).

(** [EventHandler(one_time_events, many_times_events)] for a class with the
    given [ONE_TIME_EVENTS] and [MANY_TIMES_EVENTS]. *)
Definition new_EventHandler (ONE_TIME_EVENTS MANY_TIMES_EVENTS : list string)
    (one_time_events many_times_events : option (list string)) : M addr :=
  let* self := alloc (OEventHandler ∅) in
  EventHandler___init__ self ONE_TIME_EVENTS MANY_TIMES_EVENTS
                        one_time_events many_times_events >>
  ret self.

(** [EventHandler.event]. *)
Definition event (self : addr) (name : string) : M (option addr) :=
  let* events := get_events self in
  ret (events !! name).

(** The [callback] argument of [bind_event]: one callable, or a list or
    tuple of callables. *)
Inductive callbacks :=
| Single (cbk : callback)
| Several (cbks : list callback).

(** [EventHandler.bind_event]. *)
Definition bind_event (self : addr) (name : string) (cbk : callbacks)
    (errback : option callback) : M unit :=
  let* events := get_events self in
  match events !! name with
  | None =>
      let* e := Event___init__ in
      store self (OEventHandler (<[name := e]> events))
  | Some _ => ret tt
  end >>
  let* events := get_events self in
  match events !! name with
  | None => raise AttributeError
  | Some event =>
      match cbk with
      | Several cbks =>
          match errback with
          | Some _ => raise AssertionError
          | None => ret tt
          end >>
          for_each cbks (fun c => bind event c None)
      | Single c => bind event c errback
      end
  end.

(** [EventHandler.fire_event]. *)
Definition fire_event (fuel : nat) (self : addr) (name : string)
    (arg : pyval) (kw : kwargs) : M pyval :=
  let arg := match arg with
             | VNone => VRef self
             | _ => arg
             end in
  let* events := get_events self in
  match events !! name with
  | Some event =>
      try_except (fire fuel event arg kw)
        (fun e => match e with
                  | InvalidStateError => true
                  | _ => false
                  end)
        (fun _ => emit (Logged (EventAlreadyFired name)) >> ret VNone)
  | None =>
      emit (Logged (UnknownEvent name self)) >> ret VNone
  end.

(** [EventHandler.silence_event]. *)
Definition silence_event (self : addr) (name : string) : M unit :=
  let* events := get_events self in
  match events !! name with
  | Some event => silence event
  | None => ret tt
  end.

(** The loop [for callback in event._handlers: ev.bind(callback)] of
    [copy_many_times_events], reading the list in the store at each step. *)
Fixpoint copy_handlers (fuel : nat) (event ev : addr) (i : nat) : M unit :=
  match fuel with
  | O => out_of_fuel
  | S n =>
      let* o := lookup_obj event in
      match o with
      | OEvent _ hs _ =>
          match hs !! i with
          | None => ret tt
          | Some cbk => bind ev cbk None >> copy_handlers n event ev (S i)
          end
      | _ => raise AttributeError
      end
  end.

(** [isinstance(x, Event)] and [isinstance(x, EventHandler)]. *)
Definition is_Event (h : heap) (a : addr) : bool :=
  match h !! a with
  | Some (OEvent _ _ _) => true
  | _ => false
  end.

Definition isinstance_Event (a : addr) : M bool := fun h =>
  (Ok (is_Event h a), h, []).

Definition isinstance_EventHandler (a : addr) : M bool := fun h =>
  (Ok match h !! a with
      | Some (OEventHandler _) => true
      | _ => false
      end, h, []).

(** The body of the loop [for name, event in iteritems(other._events)] of
    [copy_many_times_events].  [events] is the dict of [self], looked up as
    it is at that turn. *)
Definition copy_item (fuel : nat) (self : addr) : string * addr -> M unit :=
  fun '(name, event) =>
    let* is_event := isinstance_Event event in
    if is_event then
      let* events := get_events self in
      match events !! name with
      | Some ev => copy_handlers fuel event ev 0
      | None => ret tt
      end
    else ret tt.

(** [EventHandler.copy_many_times_events]. *)
Definition copy_many_times_events (fuel : nat) (self other : addr) : M unit :=
  let* is_handler := isinstance_EventHandler other in
  if is_handler then
    let* _ := get_events self in
    let* others := get_events other in
    for_each (map_to_list others) (copy_item fuel self)
  else ret tt.

(** *** Vocabulary of the statements *)

(** What a caller may do with an Event it holds. *)
Inductive Event_op :=
| OpBind (cbk : callback) (errback : option callback)
| OpFire (arg : pyval) (kw : kwargs)
| OpSilence.

Definition run_op (fuel : nat) (self : addr) (op : Event_op) : M unit :=
  match op with
  | OpBind cbk errback => Event_bind self cbk errback
  | OpFire arg kw => Event_fire fuel self arg kw >> ret tt
  | OpSilence => silence self
  end.

(** A caller that performs the operations one after the other, whatever
    each of them answers: the final store and everything done on the way. *)
Fixpoint run_ops (fuel : nat) (self : addr) (ops : list Event_op) (h : heap)
  : heap * list action :=
  match ops with
  | [] => (h, [])
  | op :: ops' =>
      let '(_, h1, t1) := run_op fuel self op h in
      let '(h2, t2) := run_ops fuel self ops' h1 in
      (h2, t1 ++ t2)
  end.

End WithEnv.

(** A constructor gives a new object of the expected kind and leaves the
    objects there are alone. *)
Definition makes (make : M addr) (P : obj -> Prop) : Prop :=
  forall h : heap, exists a h1 o,
    make h = (Ok a, h1, []) /\ h !! a = None /\
    h1 !! a = Some o /\ P o /\
    (forall x ox, h !! x = Some ox -> h1 !! x = Some ox).

(** A call that comes back to [Event.fire]: it returns, or raises an
    [Exception]. *)
Definition comes_back (r : res pyval) : Prop :=
  match r with
  | Ok _ => True
  | Raise e => is_Exception e = true
  | OutOfFuel => False
  end.

(** The calls of bound callables among the actions performed. *)
Definition is_call (a : action) : bool :=
  match a with
  | Called _ _ _ => true
  | _ => false
  end.

Definition calls_of (t : list action) : list action := List.filter is_call t.

(** *** Sample collaborators and stores *)

(** Callables for the examples: [Fn 2] raises, [Fn 3] returns a generator,
    any other returns [None]; none touches the store.  The Deferred engine
    leaves the store alone and gives [None].  [Fn 9] is a callable object
    that is false (its class defines a length of zero), every other is
    true. *)
Definition sample_env : Env := {|
  call := fun hnd _ _ h =>
    match hnd with
    | Fn 2 => (Raise (UserException "boom"), h)
    | Fn 3 => (Ok (VGenerator 0), h)
    | _ => (Ok VNone, h)
    end;
  run_callbacks := fun _ h => (Ok VNone, h);
  truth := fun c =>
    match c with
    | Fn 9 => false
    | _ => true
    end
|}.

(** An Event at 0 with the callbacks [Fn 1], [Fn 2], [Fn 3] bound. *)
Definition h_event : heap :=
  <[0 := OEvent false [Fn 1; Fn 2; Fn 3] 0]> ∅.

(** A handler at 0 that knows the one-time event [start] (the OneTime at 1,
    its inner Deferred at 2) and the repeatable event [data] (the Event at
    3). *)
Definition h_handler : heap :=
  <[0 := OEventHandler (<["start" := 1]> (<["data" := 3]> ∅))]>
  (<[1 := OOneTime false new_Deferred 2]>
  (<[2 := ODeferred new_Deferred]>
  (<[3 := OEvent false [] 0]> ∅))).

(** Two handlers, [self] at 0 and [other] at 1.  Both know the repeatable
    event [data] (the Events at 2 and 3); [self] also knows the one-time event
    [start] (the OneTime at 6, its inner Deferred at 7). *)
Definition h_copy : heap :=
  <[0 := OEventHandler (<["data" := 2]> {["start" := 6]})]>
  (<[1 := OEventHandler {["data" := 3]}]>
  (<[2 := OEvent false [Fn 1] 0]>
  (<[3 := OEvent false [Fn 2; Fn 3] 5]>
  (<[6 := OOneTime false new_Deferred 7]>
  (<[7 := ODeferred new_Deferred]> ∅))))).

(** A handler at 0 that knows the repeatable event [data], the Event at 1
    with one callback bound. *)
Definition h_single : heap :=
  <[0 := OEventHandler {["data" := 1]}]> (<[1 := OEvent false [Fn 1] 0]> ∅).

(** Two handlers that disagree on [start]: a OneTime (at 2, inner Deferred at
    3) for [self] at 0, a repeatable Event (at 4) for [other] at 1. *)
Definition h_mixed : heap :=
  <[0 := OEventHandler {["start" := 2]}]>
  (<[1 := OEventHandler {["start" := 4]}]>
  (<[2 := OOneTime false new_Deferred 3]>
  (<[3 := ODeferred new_Deferred]>
  (<[4 := OEvent false [Fn 7] 0]> ∅)))).

(** *** More of EventHandler *)

(** The callables in the [callback] argument of [bind_event]. *)
Definition cbks_of (cbk : callbacks) : list callback :=
  match cbk with
  | Single c => [c]
  | Several cs => cs
  end.

Section MoreWithEnv.
Context {env : Env}.

(** [EventHandler.bind_events], its keyword arguments being [events].  The
    loop runs over the names the handler knows when it starts. *)
Definition bind_events (self : addr) (events : gmap string callbacks)
  : M unit :=
  let* own := get_events self in
  for_each (map_to_list own).*1 (fun name =>
    match events !! name with
    | Some cbk => bind_event self name cbk None
    | None => ret tt
    end).

(** [fire(arg, **kwargs)] called [k] times in a row. *)
Fixpoint fire_times (fuel : nat) (self : addr) (arg : pyval) (kw : kwargs)
    (k : nat) : M unit :=
  match k with
  | O => ret tt
  | S k' => Event_fire fuel self arg kw >> fire_times fuel self arg kw k'
  end.

End MoreWithEnv.

(** Callables for more examples: [Fn 5] binds [Fn 1] to the Event at 0 and
    returns [None], [Fn 7] binds itself to that Event, [Fn 6] raises a
    [BaseException] that is not an [Exception], [Fn 8] raises an
    [Exception], any other returns [None] and leaves the store alone. *)
Definition binding_env : Env := {|
  call := fun hnd _ _ h =>
    match hnd with
    | Fn 5 =>
        match h !! 0 with
        | Some (OEvent s hs n) =>
            (Ok VNone, <[0 := OEvent s (hs ++ [Fn 1]) n]> h)
        | _ => (Ok VNone, h)
        end
    | Fn 6 => (Raise (BaseExc "KeyboardInterrupt"), h)
    | Fn 8 => (Raise (UserException "boom"), h)
    | Fn 7 =>
        match h !! 0 with
        | Some (OEvent s hs n) =>
            (Ok VNone, <[0 := OEvent s (hs ++ [Fn 7]) n]> h)
        | _ => (Ok VNone, h)
        end
    | _ => (Ok VNone, h)
    end;
  run_callbacks := fun _ h => (Ok VNone, h);
  truth := fun _ => true
|}.

End Events.

(** ** Facts about asyncio.py *)

Module AsyncioFacts.
Import Asyncio.

(** *** Stepping lemmas for the monad *)

Lemma bind_ok {A B} (m : M A) (k : A -> M B) h a h' :
  m h = (Ok a, h') -> bind m k h = k a h'.
Proof. intros E. unfold bind. now rewrite E. Qed.

Lemma bind_raise {A B} (m : M A) (k : A -> M B) h e h' :
  m h = (Raise e, h') -> bind m k h = (Raise e, h').
Proof. intros E. unfold bind. now rewrite E. Qed.

Lemma get_fut_ok h self o f :
  h !! self = Some o -> fut_of o = Some f -> get_fut self h = (Ok f, h).
Proof. intros E1 E2. unfold get_fut. now rewrite E1, E2. Qed.

Lemma modify_fut_ok h self o f upd :
  h !! self = Some o -> fut_of o = Some f ->
  modify_fut self upd h = (Ok tt, <[self := with_fut o (upd f)]> h).
Proof. intros E1 E2. unfold modify_fut. now rewrite E1, E2. Qed.

Lemma call_soon_ok h loop ready cb args :
  h !! loop = Some (OLoop ready) ->
  call_soon loop cb args h
  = (Ok (TimerHandle None cb args false),
     <[loop := OLoop (ready ++ [TimerHandle None cb args false])]> h).
Proof. intros E. unfold call_soon. now rewrite E. Qed.

Lemma fut_of_with_fut o f f' :
  fut_of o = Some f -> fut_of (with_fut o f') = Some f'.
Proof. destruct o; simpl; congruence. Qed.

Lemma with_fut_with_fut o f f' : with_fut (with_fut o f) f' = with_fut o f'.
Proof. now destruct o. Qed.

Lemma with_fut_id o f : fut_of o = Some f -> with_fut o f = o.
Proof. destruct o; simpl; congruence. Qed.

Lemma fut_not_loop (h : heap) self loop o f ready :
  h !! self = Some o -> fut_of o = Some f -> h !! loop = Some (OLoop ready) ->
  self <> loop.
Proof. intros E1 E2 E3 ->. rewrite E1 in E3. injection E3 as ->. discriminate. Qed.

(** The loop of [_schedule_callbacks]: each callback is appended to the ready
    queue, in list order. *)
Lemma schedule_loop self o f : forall cbs (h : heap) ready,
  h !! self = Some o -> fut_of o = Some f ->
  h !! _loop f = Some (OLoop ready) ->
  for_each cbs (fun cb =>
    let* f := get_fut self in
    call_soon (_loop f) cb [VRef self] >> ret tt) h
  = (Ok tt, <[_loop f := OLoop (ready ++ map (handle_for self) cbs)]> h).
Proof.
  induction cbs as [|cb cbs IH]; intros h ready Hs Hf Hl; simpl.
  - rewrite app_nil_r. unfold ret. now rewrite insert_id.
  - pose proof (fut_not_loop _ _ _ _ _ _ Hs Hf Hl) as Hne.
    erewrite bind_ok; [|erewrite bind_ok by (eapply get_fut_ok; eauto);
      erewrite bind_ok by (eapply call_soon_ok; eauto); reflexivity].
    rewrite (IH _ (ready ++ [handle_for self cb])); auto.
    + rewrite insert_insert_eq. now rewrite <- app_assoc.
    + now rewrite lookup_insert_ne.
    + now rewrite lookup_insert_eq.
Qed.

(** [_schedule_callbacks] empties [_callbacks] and appends one handle per
    callback to the ready queue of the Future's loop, in list order. *)
Lemma _schedule_callbacks_ok (h : heap) self o f ready :
  h !! self = Some o -> fut_of o = Some f ->
  h !! _loop f = Some (OLoop ready) ->
  _schedule_callbacks self h
  = (Ok tt,
     <[_loop f := OLoop (ready ++ map (handle_for self) (_callbacks f))]>
       (<[self := with_fut o (set_callbacks [] f)]> h)).
Proof.
  intros Hs Hf Hl. unfold _schedule_callbacks.
  pose proof (fut_not_loop _ _ _ _ _ _ Hs Hf Hl) as Hne.
  erewrite bind_ok by (eapply get_fut_ok; eauto).
  destruct (_callbacks f) as [|cb cbs] eqn:Ecb.
  - simpl. rewrite app_nil_r. unfold ret. f_equal.
    assert (set_callbacks [] f = f) as -> by (destruct f; simpl in *; now subst).
    rewrite (with_fut_id _ _ Hf). rewrite (insert_id h self) by done.
    now rewrite insert_id.
  - erewrite bind_ok by (eapply modify_fut_ok; eauto).
    erewrite (schedule_loop self (with_fut o (set_callbacks [] f))
                (set_callbacks [] f)); eauto.
    + now rewrite lookup_insert_eq.
    + eapply fut_of_with_fut; eauto.
    + simpl. now rewrite lookup_insert_ne.
Qed.

Lemma Future_cancel_pending (h : heap) self o f ready :
  h !! self = Some o -> fut_of o = Some f ->
  h !! _loop f = Some (OLoop ready) -> _state f = _PENDING ->
  Future_cancel self h
  = (Ok true,
     after_settle h self o f
       (settled _CANCELLED (_result f) (_exception f) f) ready).
Proof.
  intros Hs Hf Hl Hst. unfold Future_cancel.
  pose proof (fut_not_loop _ _ _ _ _ _ Hs Hf Hl) as Hne.
  erewrite bind_ok by (eapply get_fut_ok; eauto).
  destruct (decide (_state f ≠ _PENDING)) as [Hn|_]; [congruence|].
  erewrite bind_ok by (eapply modify_fut_ok; eauto).
  erewrite bind_ok.
  2:{ eapply (_schedule_callbacks_ok _ self _ (set_state _CANCELLED f) ready).
      - now rewrite lookup_insert_eq.
      - eapply fut_of_with_fut; eauto.
      - simpl. now rewrite lookup_insert_ne. }
  unfold ret, after_settle. simpl.
  now rewrite insert_insert_eq, with_fut_with_fut.
Qed.

Lemma Future_cancel_not_pending (h : heap) self o f :
  h !! self = Some o -> fut_of o = Some f -> _state f <> _PENDING ->
  Future_cancel self h = (Ok false, h).
Proof.
  intros Hs Hf Hst. unfold Future_cancel.
  erewrite bind_ok by (eapply get_fut_ok; eauto).
  now destruct (decide (_state f ≠ _PENDING)).
Qed.

Lemma set_result_pending (h : heap) self o f ready v :
  h !! self = Some o -> fut_of o = Some f ->
  h !! _loop f = Some (OLoop ready) -> _state f = _PENDING ->
  set_result self v h
  = (Ok tt, after_settle h self o f (settled _FINISHED v (_exception f) f) ready).
Proof.
  intros Hs Hf Hl Hst. unfold set_result.
  pose proof (fut_not_loop _ _ _ _ _ _ Hs Hf Hl) as Hne.
  erewrite bind_ok by (eapply get_fut_ok; eauto).
  destruct (decide (_state f ≠ _PENDING)) as [Hn|_]; [congruence|].
  erewrite bind_ok by (eapply modify_fut_ok; eauto).
  erewrite bind_ok.
  2:{ eapply modify_fut_ok; [now rewrite lookup_insert_eq|].
      eapply fut_of_with_fut; eauto. }
  rewrite insert_insert_eq, with_fut_with_fut.
  erewrite (_schedule_callbacks_ok _ self _
              (set_state _FINISHED (set_result_attr v f)) ready).
  - unfold after_settle. simpl.
    now rewrite insert_insert_eq, with_fut_with_fut.
  - now rewrite lookup_insert_eq.
  - eapply fut_of_with_fut; eauto.
  - simpl. now rewrite lookup_insert_ne.
Qed.

Lemma set_result_not_pending (h : heap) self o f v :
  h !! self = Some o -> fut_of o = Some f -> _state f <> _PENDING ->
  set_result self v h = (Raise InvalidStateError, h).
Proof.
  intros Hs Hf Hst. unfold set_result.
  erewrite bind_ok by (eapply get_fut_ok; eauto).
  now destruct (decide (_state f ≠ _PENDING)).
Qed.

Lemma set_exception_not_pending (h : heap) self o f e :
  h !! self = Some o -> fut_of o = Some f -> _state f <> _PENDING ->
  set_exception self e h = (Raise InvalidStateError, h).
Proof.
  intros Hs Hf Hst. unfold set_exception.
  erewrite bind_ok by (eapply get_fut_ok; eauto).
  now destruct (decide (_state f ≠ _PENDING)).
Qed.

(** What [result()] does to the store of a FINISHED Future: the traceback
    logger is cleared and forgotten. *)
Lemma result_finished (h : heap) self o f :
  h !! self = Some o -> fut_of o = Some f -> _state f = _FINISHED ->
  result self h
  = (match _exception f with Some e => Raise e | None => Ok (_result f) end,
     <[self := with_fut o (set_tb_logger None f)]> h).
Proof.
  intros Hs Hf Hst. unfold result.
  erewrite bind_ok by (eapply get_fut_ok; eauto).
  destruct (decide (_state f = _CANCELLED)) as [Hc|_]; [congruence|].
  destruct (decide (_state f ≠ _FINISHED)) as [Hc|_]; [congruence|].
  destruct (_tb_logger f) as [l|] eqn:El.
  - erewrite bind_ok by (eapply modify_fut_ok; eauto).
    erewrite bind_ok.
    2:{ eapply get_fut_ok; [now rewrite lookup_insert_eq|].
        eapply fut_of_with_fut; eauto. }
    simpl. now destruct (_exception f).
  - assert (set_tb_logger None f = f) as ->
      by (destruct f; simpl in *; now subst).
    rewrite (with_fut_id _ _ Hf), (insert_id h self) by done.
    erewrite bind_ok by reflexivity.
    erewrite bind_ok by (eapply get_fut_ok; eauto).
    now destruct (_exception f).
Qed.

(** C3. [set_result(v)] succeeds only on a PENDING Future: the state becomes
    FINISHED, [v] is stored and the callbacks are scheduled; on the settled
    Future every later [set_result] or [set_exception] raises
    [InvalidStateError] and changes nothing, so [result()] still gives [v]. *)
Theorem set_result_at_most_once (h : heap) self o f ready v :
  h !! self = Some o -> fut_of o = Some f ->
  h !! _loop f = Some (OLoop ready) ->
  (_state f = _PENDING ->
     let h' := after_settle h self o f
                 (settled _FINISHED v (_exception f) f) ready in
     set_result self v h = (Ok tt, h') /\
     (forall v', set_result self v' h' = (Raise InvalidStateError, h')) /\
     (forall e, set_exception self e h' = (Raise InvalidStateError, h')) /\
     (_exception f = None ->
        forall v', fst (result self (snd (set_result self v' h'))) = Ok v))
  /\
  (_state f <> _PENDING ->
     forall v' e,
       set_result self v' h = (Raise InvalidStateError, h) /\
       set_exception self e h = (Raise InvalidStateError, h)).
Proof.
  intros Hs Hf Hl.
  pose proof (fut_not_loop _ _ _ _ _ _ Hs Hf Hl) as Hne.
  split.
  - intros Hst h'.
    assert (Hs' : h' !! self
                  = Some (with_fut o (settled _FINISHED v (_exception f) f))).
    { unfold h', after_settle. rewrite lookup_insert_ne by auto.
      now rewrite lookup_insert_eq. }
    assert (Hf' : fut_of (with_fut o (settled _FINISHED v (_exception f) f))
                  = Some (settled _FINISHED v (_exception f) f))
      by (eapply fut_of_with_fut; eauto).
    split; [now apply set_result_pending|].
    split; [intros v'; eapply set_result_not_pending; eauto; now simpl|].
    split; [intros e; eapply set_exception_not_pending; eauto; now simpl|].
    intros He v'.
    rewrite (set_result_not_pending h' self _ _ v' Hs' Hf') by (now simpl).
    simpl. rewrite (result_finished h' self _ _ Hs' Hf') by (now simpl).
    simpl. now rewrite He.
  - intros Hst v' e. split.
    + eapply set_result_not_pending; eauto.
    + eapply set_exception_not_pending; eauto.
Qed.

Lemma set_result_at_most_once_witness :
  h0 !! 1 = Some (OFuture fut0) /\
  h0 !! 0 = Some (OLoop []) /\
  fst (set_result 1 (VInt 7) h0) = Ok tt /\
  fst (set_result 1 (VInt 8) (snd (set_result 1 (VInt 7) h0)))
  = Raise InvalidStateError /\
  fst (result 1
         (snd (set_result 1 (VInt 8) (snd (set_result 1 (VInt 7) h0)))))
  = Ok (VInt 7).
Proof.
  destruct (set_result_at_most_once h0 1 (OFuture fut0) fut0 [] (VInt 7)
              eq_refl eq_refl eq_refl) as [Hp _].
  destruct (Hp eq_refl) as (H1 & H2 & _ & H4).
  split; [reflexivity|]. split; [reflexivity|].
  rewrite H1. simpl. split; [reflexivity|].
  split; [now rewrite H2|].
  exact (H4 eq_refl (VInt 8)).
Defined.

(** C4. [Future.cancel()] returns true exactly when the Future is PENDING; it
    then moves the state to CANCELLED and schedules every registered callback.
    Otherwise it returns false and the store, stored result included, is
    unchanged. *)
Theorem Future_cancel_iff_pending (h : heap) self o f ready :
  h !! self = Some o -> fut_of o = Some f ->
  h !! _loop f = Some (OLoop ready) ->
  (_state f = _PENDING ->
     Future_cancel self h
     = (Ok true,
        after_settle h self o f
          (settled _CANCELLED (_result f) (_exception f) f) ready)) /\
  (_state f <> _PENDING -> Future_cancel self h = (Ok false, h)) /\
  (fst (Future_cancel self h) = Ok true <-> _state f = _PENDING).
Proof.
  intros Hs Hf Hl.
  split; [intros; now apply Future_cancel_pending|].
  split; [intros; eapply Future_cancel_not_pending; eauto|].
  destruct (decide (_state f = _PENDING)) as [Hp|Hn].
  - erewrite Future_cancel_pending; eauto. now simpl.
  - erewrite Future_cancel_not_pending; eauto. simpl. split; [discriminate|done].
Qed.

Lemma Future_cancel_iff_pending_witness :
  Future_cancel 1 h0
  = (Ok true,
     <[0 := OLoop [handle_for 1 (Fn 1); handle_for 1 (Fn 2)]]>
       (<[1 := OFuture (mkFuture _CANCELLED VNone None 0 [] false None)]>
          h0)) /\
  fst (result 1 (snd (Future_cancel 1 h0))) = Raise CancelledError /\
  Future_cancel 1 (snd (set_result 1 (VInt 7) h0))
  = (Ok false, snd (set_result 1 (VInt 7) h0)).
Proof.
  destruct (Future_cancel_iff_pending h0 1 (OFuture fut0) fut0 []
              eq_refl eq_refl eq_refl) as (H1 & _ & _).
  split; [exact (H1 eq_refl)|].
  split; [rewrite (H1 eq_refl); reflexivity|].
  vm_compute. reflexivity.
Defined.

(** On a plain Future, [x.cancel()] is [Future.cancel]. *)
Lemma cancel_on_Future n (h : heap) self f :
  h !! self = Some (OFuture f) -> cancel (S n) self h = Future_cancel self h.
Proof. intros Hs. simpl. now rewrite Hs. Qed.

(** C5. [result()] gives the stored value of a Future FINISHED without an
    error, raises [CancelledError] on a CANCELLED one, raises the stored error
    of a Future FINISHED with an error, and raises [InvalidStateError] while
    the Future is PENDING (as [exception()] does). *)
Theorem result_by_state (h : heap) self o f :
  h !! self = Some o -> fut_of o = Some f ->
  (_state f = _FINISHED -> _exception f = None ->
     fst (result self h) = Ok (_result f)) /\
  (_state f = _CANCELLED -> result self h = (Raise CancelledError, h)) /\
  (_state f = _FINISHED -> forall e, _exception f = Some e ->
     fst (result self h) = Raise e) /\
  (_state f = _PENDING ->
     result self h = (Raise InvalidStateError, h) /\
     exception self h = (Raise InvalidStateError, h)).
Proof.
  intros Hs Hf. repeat split.
  - intros Hst He. rewrite (result_finished _ _ _ _ Hs Hf Hst). now rewrite He.
  - intros Hst. unfold result.
    erewrite bind_ok by (eapply get_fut_ok; eauto).
    destruct (decide (_state f = _CANCELLED)); [done|congruence].
  - intros Hst e He. rewrite (result_finished _ _ _ _ Hs Hf Hst). now rewrite He.
  - unfold result. erewrite bind_ok by (eapply get_fut_ok; eauto).
    destruct (decide (_state f = _CANCELLED)); [congruence|].
    destruct (decide (_state f ≠ _FINISHED)) as [_|Hnn];
      [done|exfalso; apply Hnn; congruence].
  - unfold exception. erewrite bind_ok by (eapply get_fut_ok; eauto).
    destruct (decide (_state f = _CANCELLED)); [congruence|].
    destruct (decide (_state f ≠ _FINISHED)) as [_|Hnn];
      [done|exfalso; apply Hnn; congruence].
Qed.

Lemma result_by_state_witness :
  let h := snd (Future___init__ 0 None h0) in
  fst (Future___init__ 0 None h0) = Ok 2 /\
  fst (result 2 h) = Raise InvalidStateError /\
  fst (exception 2 h) = Raise InvalidStateError /\
  fst (result 1 (snd (set_result 1 (VInt 7) h))) = Ok (VInt 7) /\
  fst (result 1 (snd (set_exception 1 (UserException "boom") h)))
  = Raise (UserException "boom") /\
  fst (result 1 (snd (Future_cancel 1 h))) = Raise CancelledError.
Proof.
  intros h.
  destruct (result_by_state h 2 _ _ eq_refl eq_refl) as (_ & _ & _ & H4).
  destruct (H4 eq_refl) as [H4a H4b].
  destruct (result_by_state (snd (set_result 1 (VInt 7) h)) 1 _ _
              eq_refl eq_refl) as (H1 & _).
  destruct (result_by_state (snd (set_exception 1 (UserException "boom") h))
              1 _ _ eq_refl eq_refl) as (_ & _ & H3 & _).
  destruct (result_by_state (snd (Future_cancel 1 h)) 1 _ _
              eq_refl eq_refl) as (_ & H2 & _).
  split; [reflexivity|].
  split; [now rewrite H4a|]. split; [now rewrite H4b|].
  split; [exact (H1 eq_refl eq_refl)|].
  split; [exact (H3 eq_refl _ eq_refl)|].
  now rewrite (H2 eq_refl).
Defined.

Lemma add_done_callback_pending (h : heap) self o f cb :
  h !! self = Some o -> fut_of o = Some f -> _state f = _PENDING ->
  add_done_callback self cb h
  = (Ok tt, <[self := with_fut o (set_callbacks (_callbacks f ++ [cb]) f)]> h).
Proof.
  intros Hs Hf Hst. unfold add_done_callback.
  erewrite bind_ok by (eapply get_fut_ok; eauto).
  destruct (decide (_state f ≠ _PENDING)); [congruence|].
  exact (modify_fut_ok h self o f _ Hs Hf).
Qed.

Lemma add_done_callback_settled (h : heap) self o f ready cb :
  h !! self = Some o -> fut_of o = Some f ->
  h !! _loop f = Some (OLoop ready) -> _state f <> _PENDING ->
  add_done_callback self cb h
  = (Ok tt, <[_loop f := OLoop (ready ++ [handle_for self cb])]> h).
Proof.
  intros Hs Hf Hl Hst. unfold add_done_callback.
  erewrite bind_ok by (eapply get_fut_ok; eauto).
  destruct (decide (_state f ≠ _PENDING)); [|done].
  erewrite bind_ok by (eapply call_soon_ok; eauto). reflexivity.
Qed.

(** Registering a list of callbacks one after the other on a PENDING Future
    appends them, in that order, to [_callbacks]. *)
Lemma add_done_callbacks_pending self : forall cbs (h : heap) o f,
  h !! self = Some o -> fut_of o = Some f -> _state f = _PENDING ->
  for_each cbs (add_done_callback self) h
  = (Ok tt, <[self := with_fut o (set_callbacks (_callbacks f ++ cbs) f)]> h).
Proof.
  induction cbs as [|cb cbs IH]; intros h o f Hs Hf Hst; simpl.
  - rewrite app_nil_r.
    assert (set_callbacks (_callbacks f) f = f) as -> by now destruct f.
    rewrite (with_fut_id _ _ Hf). unfold ret. now rewrite insert_id.
  - erewrite bind_ok by (eapply add_done_callback_pending; eauto).
    rewrite (IH _ (with_fut o (set_callbacks (_callbacks f ++ [cb]) f))
               (set_callbacks (_callbacks f ++ [cb]) f)).
    + rewrite insert_insert_eq, with_fut_with_fut. simpl.
      now rewrite <- app_assoc.
    + now rewrite lookup_insert_eq.
    + eapply fut_of_with_fut; eauto.
    + done.
Qed.

Lemma set_exception_pending (h : heap) self o f ready e :
  h !! self = Some o -> fut_of o = Some f ->
  h !! _loop f = Some (OLoop ready) -> _state f = _PENDING ->
  set_exception self e h
  = (Ok tt,
     <[_loop f := OLoop (ready ++ map (handle_for self) (_callbacks f)
                               ++ [TimerHandle None (TbLoggerActivate e) [] false])]>
       (<[self := with_fut o (set_tb_logger (Some e)
                                (settled _FINISHED (_result f) (Some e) f))]> h)).
Proof.
  intros Hs Hf Hl Hst. unfold set_exception.
  pose proof (fut_not_loop _ _ _ _ _ _ Hs Hf Hl) as Hne.
  erewrite bind_ok by (eapply get_fut_ok; eauto).
  destruct (decide (_state f ≠ _PENDING)) as [Hn|_]; [congruence|].
  erewrite bind_ok by (eapply modify_fut_ok; eauto).
  erewrite bind_ok.
  2:{ eapply modify_fut_ok; [now rewrite lookup_insert_eq|].
      eapply fut_of_with_fut; eauto. }
  rewrite insert_insert_eq, with_fut_with_fut.
  erewrite bind_ok.
  2:{ eapply (_schedule_callbacks_ok _ self _
                (set_state _FINISHED (set_exception_attr (Some e) f)) ready).
      - now rewrite lookup_insert_eq.
      - eapply fut_of_with_fut; eauto.
      - simpl. now rewrite lookup_insert_ne. }
  rewrite insert_insert_eq, with_fut_with_fut. simpl.
  erewrite bind_ok.
  2:{ eapply modify_fut_ok.
      - rewrite lookup_insert_ne by auto. now rewrite lookup_insert_eq.
      - eapply fut_of_with_fut; eauto. }
  rewrite with_fut_with_fut.
  erewrite bind_ok.
  2:{ eapply get_fut_ok; [now rewrite lookup_insert_eq|].
      eapply fut_of_with_fut; eauto. }
  simpl. erewrite bind_ok.
  2:{ eapply call_soon_ok. rewrite lookup_insert_ne by auto.
      now rewrite lookup_insert_eq. }
  unfold ret. f_equal. apply map_eq. intros i.
  destruct (decide (i = _loop f)) as [->|H1].
  - rewrite !lookup_insert_eq. now rewrite <- app_assoc.
  - rewrite !(lookup_insert_ne _ (_loop f)) by auto.
    destruct (decide (i = self)) as [->|H2].
    + now rewrite !lookup_insert_eq.
    + now rewrite !lookup_insert_ne by auto.
Qed.

(** C6. On a PENDING Future [add_done_callback(cb)] appends [cb] to the
    pending list and enqueues nothing.  On a settled Future its whole effect is
    one handle for [cb(self)] at the tail of the ready queue of the loop
    ([call_soon]); [cb] is not run by this call.  When the Future settles, by
    [cancel], [set_result] or [set_exception], the registered callbacks are
    enqueued in registration order. *)
Theorem add_done_callback_schedules (h : heap) self o f ready :
  h !! self = Some o -> fut_of o = Some f ->
  h !! _loop f = Some (OLoop ready) ->
  (_state f = _PENDING -> forall cb,
     add_done_callback self cb h
     = (Ok tt,
        <[self := with_fut o (set_callbacks (_callbacks f ++ [cb]) f)]> h)) /\
  (_state f <> _PENDING -> forall cb,
     add_done_callback self cb h
     = (Ok tt, <[_loop f := OLoop (ready ++ [handle_for self cb])]> h)) /\
  (_state f = _PENDING -> forall cbs,
     let h1 := snd (for_each cbs (add_done_callback self) h) in
     let queued := ready ++ map (handle_for self) (_callbacks f ++ cbs) in
     fst (for_each cbs (add_done_callback self) h) = Ok tt /\
     snd (Future_cancel self h1) !! _loop f = Some (OLoop queued) /\
     (forall v, snd (set_result self v h1) !! _loop f = Some (OLoop queued)) /\
     (forall e, snd (set_exception self e h1) !! _loop f
                = Some (OLoop (queued
                               ++ [TimerHandle None (TbLoggerActivate e) []
                                     false])))).
Proof.
  intros Hs Hf Hl.
  pose proof (fut_not_loop _ _ _ _ _ _ Hs Hf Hl) as Hne.
  split; [intros; now apply add_done_callback_pending|].
  split; [intros; eapply add_done_callback_settled; eauto|].
  intros Hst cbs h1 queued. subst h1.
  rewrite (add_done_callbacks_pending self cbs h o f Hs Hf Hst). simpl.
  set (f1 := set_callbacks (_callbacks f ++ cbs) f).
  set (h1 := <[self := with_fut o f1]> h).
  assert (Hs1 : h1 !! self = Some (with_fut o f1))
    by (unfold h1; now rewrite lookup_insert_eq).
  assert (Hf1 : fut_of (with_fut o f1) = Some f1)
    by (eapply fut_of_with_fut; eauto).
  assert (Hl1 : h1 !! _loop f1 = Some (OLoop ready))
    by (unfold h1; simpl; now rewrite lookup_insert_ne).
  split; [done|]. split; [|split].
  - rewrite (Future_cancel_pending h1 self _ f1 ready Hs1 Hf1 Hl1 Hst).
    unfold after_settle. simpl. now rewrite lookup_insert_eq.
  - intros v.
    rewrite (set_result_pending h1 self _ f1 ready v Hs1 Hf1 Hl1 Hst).
    unfold after_settle. simpl. now rewrite lookup_insert_eq.
  - intros e.
    rewrite (set_exception_pending h1 self _ f1 ready e Hs1 Hf1 Hl1 Hst).
    simpl. rewrite lookup_insert_eq. unfold queued. now rewrite <- app_assoc.
Qed.

Lemma add_done_callback_schedules_witness :
  add_done_callback 1 (Fn 3) h0
  = (Ok tt,
     <[1 := OFuture (set_callbacks [Fn 1; Fn 2; Fn 3] fut0)]> h0) /\
  snd (set_result 1 (VInt 7) (snd (add_done_callback 1 (Fn 3) h0)))
    !! 0
  = Some (OLoop [handle_for 1 (Fn 1); handle_for 1 (Fn 2);
                 handle_for 1 (Fn 3)]) /\
  add_done_callback 1 (Fn 4) (snd (Future_cancel 1 h0))
  = (Ok tt,
     <[0 := OLoop [handle_for 1 (Fn 1); handle_for 1 (Fn 2);
                       handle_for 1 (Fn 4)]]>
       (snd (Future_cancel 1 h0))).
Proof.
  destruct (add_done_callback_schedules h0 1 _ _ [] eq_refl eq_refl eq_refl)
    as (H1 & _ & H3).
  destruct (add_done_callback_schedules (snd (Future_cancel 1 h0)) 1
              _ _ _ eq_refl eq_refl eq_refl) as (_ & H2 & _).
  split; [exact (H1 eq_refl (Fn 3))|].
  split.
  - destruct (H3 eq_refl [Fn 3]) as (_ & _ & H & _). exact (H (VInt 7)).
  - apply H2. discriminate.
Defined.

(** *** Task.cancel *)

(** [Task.cancel] by cases on the Task and on what its waiter answers. *)
Lemma Task_cancel_unfold wc (h : heap) self f t :
  h !! self = Some (OTask f t) ->
  Task_cancel wc self h
  = if decide (_state f ≠ _PENDING) then (Ok false, h)
    else match _fut_waiter t with
         | None => (Ok true, <[self := OTask f (set_must_cancel true t)]> h)
         | Some w =>
             match wc w h with
             | (Ok true, h1) => (Ok true, h1)
             | (Ok false, h1) =>
                 (modify_task self (set_must_cancel true) >> ret true) h1
             | (Raise e, h1) => (Raise e, h1)
             | (OutOfFuel, h1) => (OutOfFuel, h1)
             end
         end.
Proof.
  intros Hs. unfold Task_cancel, done.
  erewrite bind_ok by (erewrite bind_ok by (eapply get_fut_ok; eauto; reflexivity);
                       reflexivity).
  case_bool_decide as Hd; destruct (decide (_state f ≠ _PENDING)); try done.
  unfold bind at 1, get_task. rewrite Hs.
  destruct (_fut_waiter t) as [w|].
  - unfold bind at 1. destruct (wc w h) as [[[|]|e|] h1]; reflexivity.
  - unfold bind, ret, modify_task. now rewrite Hs.
Qed.

Lemma call_soon_keeps_task l cb args (h h1 : heap) r a fa ta :
  call_soon l cb args h = (r, h1) ->
  h !! a = Some (OTask fa ta) -> h1 !! a = Some (OTask fa ta).
Proof.
  unfold call_soon. intros E Ha.
  destruct (h !! l) as [[rd| |]|] eqn:El; inversion E; subst; auto.
  rewrite lookup_insert_ne; auto. intros ->. congruence.
Qed.

Lemma modify_fut_keeps_other x upd (h h1 : heap) r a :
  modify_fut x upd h = (r, h1) -> a <> x -> h1 !! a = h !! a.
Proof.
  unfold modify_fut. intros E Hne.
  destruct (h !! x) as [o|]; [destruct (fut_of o)|]; inversion E; subst; auto.
  now rewrite lookup_insert_ne.
Qed.

Lemma get_fut_heap x (h h1 : heap) r : get_fut x h = (r, h1) -> h1 = h.
Proof.
  unfold get_fut. intros E.
  destruct (h !! x) as [o|]; [destruct (fut_of o)|]; now inversion E.
Qed.

(** Read off the result of a finished computation. *)
Ltac minv E := unfold ret, raise in E; inversion E; subst; clear E.

Lemma schedule_loop_keeps_task x a fa ta : forall cbs (h h1 : heap) r,
  for_each cbs (fun cb =>
    let* f := get_fut x in
    call_soon (_loop f) cb [VRef x] >> ret tt) h = (r, h1) ->
  h !! a = Some (OTask fa ta) -> h1 !! a = Some (OTask fa ta).
Proof.
  induction cbs as [|cb cbs IH]; intros h h1 r E Ha; simpl in E.
  - now minv E.
  - unfold bind at 1 2 in E.
    destruct (get_fut x h) as [[fx|e|] hx] eqn:Eg;
      apply get_fut_heap in Eg; subst hx; try (now minv E).
    unfold bind at 1 in E.
    destruct (call_soon (_loop fx) cb [VRef x] h) as [[hd|e|] h2] eqn:Ec;
      pose proof (call_soon_keeps_task _ _ _ _ _ _ _ _ _ Ec Ha) as Ha2;
      try (now minv E).
    simpl in E. eapply IH; eauto.
Qed.

Lemma _schedule_callbacks_keeps_task x (h h1 : heap) r a fa ta :
  _schedule_callbacks x h = (r, h1) -> a <> x ->
  h !! a = Some (OTask fa ta) -> h1 !! a = Some (OTask fa ta).
Proof.
  unfold _schedule_callbacks. intros E Hne Ha. unfold bind at 1 in E.
  destruct (get_fut x h) as [[fx|e|] hx] eqn:Eg;
    apply get_fut_heap in Eg; subst hx; try (now minv E).
  destruct (_callbacks fx) as [|cb cbs]; [now minv E|].
  unfold bind at 1 in E.
  destruct (modify_fut x (set_callbacks []) h) as [[[]|e|] h2] eqn:Em;
    pose proof (modify_fut_keeps_other _ _ _ _ _ a Em Hne) as Hk;
    try (minv E; congruence).
  eapply schedule_loop_keeps_task; eauto. congruence.
Qed.

Lemma Future_cancel_keeps_task x (h h1 : heap) r a fa ta :
  Future_cancel x h = (r, h1) -> a <> x ->
  h !! a = Some (OTask fa ta) -> h1 !! a = Some (OTask fa ta).
Proof.
  unfold Future_cancel. intros E Hne Ha. unfold bind at 1 in E.
  destruct (get_fut x h) as [[fx|e|] hx] eqn:Eg;
    apply get_fut_heap in Eg; subst hx; try (now minv E).
  destruct (decide (_state fx ≠ _PENDING)); [now minv E|].
  unfold bind at 1 in E.
  destruct (modify_fut x (set_state _CANCELLED) h) as [[[]|e|] h2] eqn:Em;
    pose proof (modify_fut_keeps_other _ _ _ _ _ a Em Hne) as Hk;
    try (minv E; congruence).
  unfold bind at 1 in E.
  destruct (_schedule_callbacks x h2) as [[[]|e|] h3] eqn:Es;
    minv E;
    eapply _schedule_callbacks_keeps_task; eauto; congruence.
Qed.

(** More fuel does not change an answer already reached. *)
Lemma cancel_fuel_mono : forall n m x (h h1 : heap) r,
  cancel n x h = (Ok r, h1) -> n <= m -> cancel m x h = (Ok r, h1).
Proof.
  induction n as [|n IH]; intros m x h h1 r E Hle; [discriminate E|].
  destruct m as [|m]; [lia|]. simpl in *.
  destruct (h !! x) as [[rd|fx|fx tx]|] eqn:Ex; try done.
  rewrite (Task_cancel_unfold _ _ _ _ _ Ex) in E.
  rewrite (Task_cancel_unfold _ _ _ _ _ Ex).
  destruct (decide (_state fx ≠ _PENDING)); [done|].
  destruct (_fut_waiter tx) as [w|]; [|done].
  destruct (cancel n w h) as [[b|e|] h2] eqn:Ew; try discriminate E.
  rewrite (IH m w h h2 b Ew) by lia. done.
Qed.

(** Cancelling anything leaves alone a PENDING Task whose waiter accepts
    cancellation: the chain of waiters cannot lead back to it. *)
Lemma cancel_keeps_waiting_task (h : heap) a fa ta w k hk :
  h !! a = Some (OTask fa ta) -> _state fa = _PENDING ->
  _fut_waiter ta = Some w -> cancel k w h = (Ok true, hk) ->
  forall n x h1 r, cancel n x h = (Ok r, h1) -> h1 !! a = Some (OTask fa ta).
Proof.
  intros Ha Hst Hw Hk. induction n as [|n IH]; intros x h1 r E; [discriminate E|].
  simpl in E. destruct (h !! x) as [[rd|fx|fx tx]|] eqn:Ex; try done.
  - eapply Future_cancel_keeps_task; eauto. intros ->. congruence.
  - rewrite (Task_cancel_unfold _ _ _ _ _ Ex) in E.
    destruct (decide (_state fx ≠ _PENDING)); [now minv E|].
    destruct (_fut_waiter tx) as [y|] eqn:Ey.
    + destruct (cancel n y h) as [[[|]|e|] h2] eqn:Ec; try discriminate E.
      * minv E. eapply IH; eauto.
      * pose proof (IH _ _ _ Ec) as Ha2.
        destruct (decide (x = a)) as [->|Hne].
        { rewrite Ha in Ex. injection Ex as <- <-. rewrite Hw in Ey.
          injection Ey as <-.
          pose proof (cancel_fuel_mono _ (n `max` k) _ _ _ _ Ec) as E1.
          pose proof (cancel_fuel_mono _ (n `max` k) _ _ _ _ Hk) as E2.
          rewrite E1 in E2 by lia. specialize (E2 ltac:(lia)). discriminate E2. }
        unfold bind, modify_task in E.
        destruct (h2 !! x) as [[rd|f2|f2 t2]|]; minv E.
        now rewrite lookup_insert_ne.
    + minv E. rewrite lookup_insert_ne; auto. intros ->.
      rewrite Ha in Ex. injection Ex as <- <-. congruence.
Qed.

(** Without a waiter, [Task.cancel] arms the pending-cancel flag. *)
Lemma Task_cancel_no_waiter n (h : heap) self f t :
  h !! self = Some (OTask f t) -> _state f = _PENDING ->
  _fut_waiter t = None ->
  cancel (S n) self h
  = (Ok true, <[self := OTask f (set_must_cancel true t)]> h).
Proof.
  intros Hs Hst Hw. simpl. rewrite Hs, (Task_cancel_unfold _ _ _ _ _ Hs).
  destruct (decide (_state f ≠ _PENDING)); [congruence|]. now rewrite Hw.
Qed.

(** C1 (as the code has it). When the waiter of a PENDING Task accepts
    cancellation, [Task.cancel()] returns true at once and the Task is left as
    it was, its pending-cancel flag included: the flag is not armed on this
    path. *)
Theorem Task_cancel_waiter_accepts n (h h' : heap) self f t w :
  h !! self = Some (OTask f t) -> _state f = _PENDING ->
  _fut_waiter t = Some w ->
  cancel n w h = (Ok true, h') ->
  cancel (S n) self h = (Ok true, h') /\
  h' !! self = Some (OTask f t) /\
  must_cancel_at h' self = Some (_must_cancel t).
Proof.
  intros Hs Hst Hw Hc.
  assert (Hk : h' !! self = Some (OTask f t))
    by (eapply cancel_keeps_waiting_task; eauto).
  split; [|split; [exact Hk|unfold must_cancel_at; now rewrite Hk]].
  simpl. rewrite Hs, (Task_cancel_unfold _ _ _ _ _ Hs).
  destruct (decide (_state f ≠ _PENDING)); [congruence|].
  now rewrite Hw, Hc.
Qed.

Lemma Task_cancel_waiter_accepts_witness :
  fst (cancel 1 1 h_task) = Ok true /\
  fst (cancel 2 2 h_task) = Ok true /\
  must_cancel_at (snd (cancel 2 2 h_task)) 2 = Some false.
Proof.
  destruct (Task_cancel_waiter_accepts 1 h_task (snd (cancel 1 1 h_task))
              2 _ _ 1 eq_refl eq_refl eq_refl eq_refl)
    as (H1 & _ & H3).
  split; [reflexivity|]. rewrite H1. split; [reflexivity|exact H3].
Defined.

(** C1 as stated fails: the waiter (a PENDING Future) accepts cancellation,
    the Task answers true, and with whatever fuel the flag is not armed. *)
Lemma Task_cancel_arms_flag_counterexample :
  fst (cancel 1 1 h_task) = Ok true /\
  forall n, ~ (exists h', cancel n 2 h_task = (Ok true, h') /\
                          must_cancel_at h' 2 = Some true).
Proof.
  split; [reflexivity|]. intros n (h' & E & Hm).
  destruct n as [|[|n]]; try discriminate E.
  assert (E2 : cancel 2 2 h_task
               = (Ok true, snd (cancel 2 2 h_task))) by reflexivity.
  apply (cancel_fuel_mono _ (S (S n))) in E2; [|lia].
  rewrite E in E2. injection E2 as ->. vm_compute in Hm. discriminate Hm.
Qed.

(** *** Future.remove_done_callback *)

Lemma length_filter_out (fn : callback) (cbs : list callback) :
  length cbs
  = (length (List.filter (fun c => negb (bool_decide (c = fn))) cbs)
     + count_occ callback_eq_dec cbs fn)%nat.
Proof.
  induction cbs as [|c cbs IH]; [reflexivity|]. simpl.
  destruct (callback_eq_dec c fn) as [->|Hne].
  - rewrite bool_decide_eq_true_2 by done. simpl. lia.
  - rewrite bool_decide_eq_false_2 by done. simpl. lia.
Qed.

Lemma filter_out_absent (fn : callback) (cbs : list callback) :
  count_occ callback_eq_dec cbs fn = 0%nat ->
  List.filter (fun c => negb (bool_decide (c = fn))) cbs = cbs.
Proof.
  induction cbs as [|c cbs IH]; [reflexivity|]. simpl.
  destruct (callback_eq_dec c fn) as [->|Hne]; [discriminate|].
  intros H. rewrite bool_decide_eq_false_2 by done. simpl. now rewrite IH.
Qed.

Lemma not_in_filter_out (fn : callback) (cbs : list callback) :
  fn ∉ List.filter (fun c => negb (bool_decide (c = fn))) cbs.
Proof.
  rewrite list_elem_of_In, List.filter_In. intros [_ H].
  now rewrite bool_decide_eq_true_2 in H.
Qed.

(** [remove_done_callback] answers the number of occurrences of [fn] and
    keeps the other callbacks, in order. *)
Lemma remove_done_callback_ok (h : heap) self o f fn :
  h !! self = Some o -> fut_of o = Some f ->
  remove_done_callback self fn h
  = (Ok (Z.of_nat (count_occ callback_eq_dec (_callbacks f) fn)),
     <[self := with_fut o
         (set_callbacks
            (List.filter (fun c => negb (bool_decide (c = fn))) (_callbacks f))
            f)]> h).
Proof.
  intros Hs Hf. unfold remove_done_callback.
  erewrite bind_ok by (eapply get_fut_ok; eauto).
  pose proof (length_filter_out fn (_callbacks f)) as Hlen.
  set (kept := List.filter _ (_callbacks f)) in *.
  assert (Hcount : (Z.of_nat (length (_callbacks f)) - Z.of_nat (length kept))%Z
                   = Z.of_nat (count_occ callback_eq_dec (_callbacks f) fn))
    by lia.
  rewrite Hcount.
  destruct (decide (Z.of_nat (count_occ callback_eq_dec (_callbacks f) fn) = 0%Z))
    as [Hz|Hz].
  - assert (kept = _callbacks f) as ->
      by (apply filter_out_absent; lia).
    assert (set_callbacks (_callbacks f) f = f) as -> by now destruct f.
    rewrite (with_fut_id _ _ Hf), (insert_id h self) by done. reflexivity.
  - erewrite bind_ok by (eapply modify_fut_ok; eauto). reflexivity.
Qed.

(** X1. On a PENDING Future [remove_done_callback(fn)] answers how many
    times [fn] was registered, and [fn] is then never scheduled: when the
    Future settles, the handles enqueued are those of the other callbacks, in
    registration order. *)
Theorem remove_done_callback_unschedules (h : heap) self o f ready fn v :
  h !! self = Some o -> fut_of o = Some f ->
  h !! _loop f = Some (OLoop ready) -> _state f = _PENDING ->
  let kept :=
    List.filter (fun c => negb (bool_decide (c = fn))) (_callbacks f) in
  fst (remove_done_callback self fn h)
  = Ok (Z.of_nat (count_occ callback_eq_dec (_callbacks f) fn)) /\
  (fn ∉ kept) /\
  snd (set_result self v (snd (remove_done_callback self fn h))) !! _loop f
  = Some (OLoop (ready ++ map (handle_for self) kept)).
Proof.
  intros Hs Hf Hl Hst kept.
  pose proof (fut_not_loop _ _ _ _ _ _ Hs Hf Hl) as Hne.
  rewrite (remove_done_callback_ok _ _ _ _ fn Hs Hf). simpl.
  split; [reflexivity|]. split; [apply not_in_filter_out|].
  erewrite (set_result_pending _ self (with_fut o (set_callbacks kept f))
              (set_callbacks kept f) ready v).
  - unfold after_settle. simpl. now rewrite lookup_insert_eq.
  - now rewrite lookup_insert_eq.
  - eapply fut_of_with_fut; eauto.
  - simpl. now rewrite lookup_insert_ne.
  - exact Hst.
Qed.

Lemma remove_done_callback_unschedules_witness :
  fst (remove_done_callback 1 (Fn 1) h0) = Ok 1%Z /\
  snd (set_result 1 (VInt 7) (snd (remove_done_callback 1 (Fn 1) h0))) !! 0
  = Some (OLoop [handle_for 1 (Fn 2)]).
Proof.
  destruct (remove_done_callback_unschedules h0 1 _ _ [] (Fn 1) (VInt 7)
              eq_refl eq_refl eq_refl eq_refl) as (H1 & _ & H3).
  split; [exact H1|exact H3].
Defined.

(** *** Future._copy_state *)

Lemma done_ok (h : heap) x o f :
  h !! x = Some o -> fut_of o = Some f ->
  done x h = (Ok (bool_decide (_state f ≠ _PENDING)), h).
Proof.
  intros Hx Hf. unfold done.
  now erewrite bind_ok by (eapply get_fut_ok; eauto).
Qed.

Lemma cancelled_ok (h : heap) x o f :
  h !! x = Some o -> fut_of o = Some f ->
  cancelled x h = (Ok (bool_decide (_state f = _CANCELLED)), h).
Proof.
  intros Hx Hf. unfold cancelled.
  now erewrite bind_ok by (eapply get_fut_ok; eauto).
Qed.

Lemma result_cancelled (h : heap) x o f :
  h !! x = Some o -> fut_of o = Some f -> _state f = _CANCELLED ->
  result x h = (Raise CancelledError, h).
Proof.
  intros Hx Hf Hst. unfold result.
  erewrite bind_ok by (eapply get_fut_ok; eauto).
  destruct (decide (_state f = _CANCELLED)); [done|congruence].
Qed.

Lemma result_pending (h : heap) x o f :
  h !! x = Some o -> fut_of o = Some f -> _state f = _PENDING ->
  result x h = (Raise InvalidStateError, h).
Proof.
  intros Hx Hf Hst. unfold result.
  erewrite bind_ok by (eapply get_fut_ok; eauto).
  destruct (decide (_state f = _CANCELLED)); [congruence|].
  destruct (decide (_state f ≠ _FINISHED)) as [_|Hnn];
    [done|exfalso; apply Hnn; congruence].
Qed.

(** What [exception()] does to the store of a FINISHED Future. *)
Lemma exception_finished (h : heap) x o f :
  h !! x = Some o -> fut_of o = Some f -> _state f = _FINISHED ->
  exception x h
  = (Ok (_exception f), <[x := with_fut o (set_tb_logger None f)]> h).
Proof.
  intros Hs Hf Hst. unfold exception.
  erewrite bind_ok by (eapply get_fut_ok; eauto).
  destruct (decide (_state f = _CANCELLED)) as [Hc|_]; [congruence|].
  destruct (decide (_state f ≠ _FINISHED)) as [Hc|_]; [congruence|].
  destruct (_tb_logger f) as [l|] eqn:El.
  - erewrite bind_ok by (eapply modify_fut_ok; eauto).
    erewrite bind_ok.
    2:{ eapply get_fut_ok; [now rewrite lookup_insert_eq|].
        eapply fut_of_with_fut; eauto. }
    reflexivity.
  - assert (set_tb_logger None f = f) as ->
      by (destruct f; simpl in *; now subst).
    rewrite (with_fut_id _ _ Hf), (insert_id h x) by done.
    erewrite bind_ok by reflexivity.
    erewrite bind_ok by (eapply get_fut_ok; eauto). reflexivity.
Qed.

Lemma exception_not_finished (h : heap) x o f :
  h !! x = Some o -> fut_of o = Some f -> _state f <> _FINISHED ->
  exception x h
  = (Raise (if decide (_state f = _CANCELLED) then CancelledError
            else InvalidStateError), h).
Proof.
  intros Hs Hf Hst. unfold exception.
  erewrite bind_ok by (eapply get_fut_ok; eauto).
  destruct (decide (_state f = _CANCELLED)); [done|].
  destruct (decide (_state f ≠ _FINISHED)) as [_|Hnn]; [done|].
  exfalso. apply Hnn. exact Hst.
Qed.

(** X2. [_copy_state(other)] on a PENDING plain Future, from a Future that is
    done, settles [self] with the outcome of [other]: afterwards
    [self.result()] answers what [other.result()] answered (the value, the
    stored error, or [CancelledError]), the callbacks of [self] are enqueued,
    and a stored error of [other] counts as retrieved (its traceback logger is
    cleared). *)
Theorem _copy_state_transfers (h : heap) self other fs oo fo ready fuel :
  h !! self = Some (OFuture fs) -> _state fs = _PENDING ->
  _exception fs = None ->
  h !! _loop fs = Some (OLoop ready) ->
  h !! other = Some oo -> fut_of oo = Some fo -> _state fo <> _PENDING ->
  0 < fuel ->
  exists h' more fo',
    _copy_state fuel self other h = (Ok tt, h') /\
    fst (result self h') = fst (result other h) /\
    h' !! _loop fs
    = Some (OLoop (ready ++ map (handle_for self) (_callbacks fs) ++ more)) /\
    h' !! other = Some (with_fut oo fo') /\
    (_state fo = _FINISHED -> _tb_logger fo' = None).
Proof.
  intros Hs Hst Hex Hl Ho Hfo Hdone Hfuel.
  assert (Hfs : fut_of (OFuture fs) = Some fs) by reflexivity.
  pose proof (fut_not_loop _ _ _ _ _ _ Hs Hfs Hl) as Hne.
  pose proof (fut_not_loop _ _ _ _ _ _ Ho Hfo Hl) as Hne'.
  assert (Hso : self <> other).
  { intros ->. rewrite Hs in Ho. injection Ho as <-. simpl in Hfo.
    injection Hfo as <-. congruence. }
  unfold _copy_state.
  erewrite bind_ok by (eapply done_ok; eauto).
  rewrite bool_decide_eq_true_2 by done. cbn [negb].
  erewrite bind_ok by (eapply cancelled_ok; eauto).
  rewrite bool_decide_eq_false_2 by congruence.
  erewrite bind_ok by (eapply done_ok; eauto).
  rewrite bool_decide_eq_false_2 by (intros H; now apply H).
  erewrite bind_ok by (eapply cancelled_ok; eauto).
  destruct (_state fo) eqn:Eo; [done| |].
  - (* other was cancelled *)
    rewrite bool_decide_eq_true_2 by done.
    destruct fuel as [|fuel]; [lia|].
    erewrite bind_ok.
    2:{ simpl. rewrite Hs. eapply Future_cancel_pending; eauto. }
    eexists _, [], fo. split; [reflexivity|]. unfold after_settle.
    split; [|split; [|split]].
    + erewrite result_cancelled;
        [|rewrite lookup_insert_ne by auto; apply lookup_insert_eq
         |reflexivity|reflexivity].
      now erewrite result_cancelled by eauto.
    + now rewrite lookup_insert_eq, app_nil_r.
    + rewrite !lookup_insert_ne by auto. now rewrite (with_fut_id _ _ Hfo).
    + discriminate.
  - (* other finished *)
    rewrite bool_decide_eq_false_2 by done.
    erewrite bind_ok by (eapply exception_finished; eauto).
    set (h1 := <[other := with_fut oo (set_tb_logger None fo)]> h).
    assert (Hs1 : h1 !! self = Some (OFuture fs))
      by (unfold h1; now rewrite lookup_insert_ne).
    assert (Hl1 : h1 !! _loop fs = Some (OLoop ready))
      by (unfold h1; now rewrite lookup_insert_ne).
    assert (Ho1 : h1 !! other = Some (with_fut oo (set_tb_logger None fo)))
      by (unfold h1; now rewrite lookup_insert_eq).
    assert (Hfo1 : fut_of (with_fut oo (set_tb_logger None fo))
                   = Some (set_tb_logger None fo))
      by (eapply fut_of_with_fut; eauto).
    rewrite (result_finished _ _ _ _ Ho Hfo Eo). cbn [fst].
    destruct (_exception fo) as [e|] eqn:Ee.
    + rewrite (set_exception_pending h1 self _ fs ready e Hs1 Hfs Hl1 Hst).
      eexists _, [_], (set_tb_logger None fo). split; [reflexivity|].
      split; [|split; [|split]].
      * erewrite result_finished;
          [|rewrite lookup_insert_ne by auto; apply lookup_insert_eq
           |reflexivity|reflexivity].
        reflexivity.
      * now rewrite lookup_insert_eq.
      * now rewrite !lookup_insert_ne by auto.
      * reflexivity.
    + assert (Hres : result other h1 = (Ok (_result fo), h1)).
      { rewrite (result_finished h1 other _ _ Ho1 Hfo1) by exact Eo.
        simpl. rewrite Ee, with_fut_with_fut. f_equal.
        unfold h1. now rewrite insert_insert_eq. }
      rewrite (bind_ok _ _ _ _ _ Hres).
      rewrite (set_result_pending h1 self _ fs ready (_result fo) Hs1 Hfs Hl1 Hst).
      eexists _, [], (set_tb_logger None fo). split; [reflexivity|].
      unfold after_settle. split; [|split; [|split]].
      * erewrite result_finished;
          [|rewrite lookup_insert_ne by auto; apply lookup_insert_eq
           |reflexivity|reflexivity].
        simpl. now rewrite Hex.
      * now rewrite lookup_insert_eq, app_nil_r.
      * now rewrite !lookup_insert_ne by auto.
      * reflexivity.
Qed.

Lemma _copy_state_transfers_witness :
  let h := snd (set_result 2 (VInt 5) (snd (Future___init__ 0 None h0))) in
  fst (_copy_state 1 1 2 h) = Ok tt /\
  fst (result 1 (snd (_copy_state 1 1 2 h))) = Ok (VInt 5).
Proof.
  intros h.
  destruct (_copy_state_transfers h 1 2 fut0 _ _ [] 1
              eq_refl eq_refl eq_refl eq_refl eq_refl eq_refl)
    as (h' & more & fo' & E & Hr & _).
  - discriminate.
  - lia.
  - rewrite E. split; [reflexivity|]. simpl. rewrite Hr. reflexivity.
Defined.

(** *** Sequences of calls on one Future *)

Lemma result_outcome (h : heap) x o f :
  h !! x = Some o -> fut_of o = Some f ->
  fst (result x h) = outcome_of f.
Proof.
  intros Hx Hf. unfold outcome_of. destruct (_state f) eqn:Est.
  - now erewrite result_pending by eauto.
  - now erewrite result_cancelled by eauto.
  - now erewrite result_finished by eauto.
Qed.

Lemma call_soon_keeps_fut l cb args (h h1 : heap) r a o f :
  call_soon l cb args h = (r, h1) ->
  h !! a = Some o -> fut_of o = Some f -> h1 !! a = Some o.
Proof.
  unfold call_soon. intros E Ha Hf.
  destruct (h !! l) as [[rd| |]|] eqn:El; inversion E; subst; auto.
  rewrite lookup_insert_ne; auto. intros ->.
  rewrite Ha in El. injection El as ->. discriminate.
Qed.

(** One call on a settled Future leaves its state and outcome alone. *)
Lemma run_Future_op_settled (h : heap) self o f op :
  h !! self = Some o -> fut_of o = Some f -> _state f <> _PENDING ->
  exists o' f',
    run_Future_op self op h !! self = Some o' /\ fut_of o' = Some f' /\
    _state f' = _state f /\ _result f' = _result f /\
    _exception f' = _exception f.
Proof.
  intros Hs Hf Hst.
  assert (Hsame : exists o' f',
            h !! self = Some o' /\ fut_of o' = Some f' /\
            _state f' = _state f /\ _result f' = _result f /\
            _exception f' = _exception f) by (exists o, f; auto).
  destruct op as [|v|e|fn|fn| |]; simpl.
  - now rewrite (Future_cancel_not_pending _ _ _ _ Hs Hf Hst).
  - now rewrite (set_result_not_pending _ _ _ _ v Hs Hf Hst).
  - now rewrite (set_exception_not_pending _ _ _ _ e Hs Hf Hst).
  - unfold add_done_callback.
    erewrite bind_ok by (eapply get_fut_ok; eauto).
    destruct (decide (_state f ≠ _PENDING)); [|done].
    unfold bind.
    destruct (call_soon (_loop f) fn [VRef self] h) as [[hd|e|] h1] eqn:Ec;
      simpl; exists o, f;
      rewrite (call_soon_keeps_fut _ _ _ _ _ _ _ _ _ Ec Hs Hf); auto.
  - rewrite (remove_done_callback_ok _ _ _ _ fn Hs Hf). simpl.
    eexists _, _. rewrite lookup_insert_eq. split; [reflexivity|].
    split; [eapply fut_of_with_fut; eauto|]. auto.
  - destruct (decide (_state f = _FINISHED)) as [Hfin|Hfin].
    + rewrite (result_finished _ _ _ _ Hs Hf Hfin). simpl.
      eexists _, _. rewrite lookup_insert_eq. split; [reflexivity|].
      split; [eapply fut_of_with_fut; eauto|]. auto.
    + rewrite (result_cancelled _ _ _ _ Hs Hf); [exact Hsame|].
      destruct (_state f); congruence.
  - destruct (decide (_state f = _FINISHED)) as [Hfin|Hfin].
    + rewrite (exception_finished _ _ _ _ Hs Hf Hfin). simpl.
      eexists _, _. rewrite lookup_insert_eq. split; [reflexivity|].
      split; [eapply fut_of_with_fut; eauto|]. auto.
    + now rewrite (exception_not_finished _ _ _ _ Hs Hf Hfin).
Qed.

(** X3. A Future that has settled stays as it settled: whatever is called on
    it afterwards ([cancel], [set_result], [set_exception],
    [add_done_callback], [remove_done_callback], [result], [exception], in
    any order and number), its state, stored result and stored error are
    unchanged and [result()] answers the same. *)
Theorem settled_Future_is_final (self : addr) (ops : list Future_op) :
  forall (h : heap) o f,
    h !! self = Some o -> fut_of o = Some f -> _state f <> _PENDING ->
    exists o' f',
      run_Future_ops self ops h !! self = Some o' /\ fut_of o' = Some f' /\
      _state f' = _state f /\ _result f' = _result f /\
      _exception f' = _exception f /\
      fst (result self (run_Future_ops self ops h)) = fst (result self h).
Proof.
  induction ops as [|op ops IH]; intros h o f Hs Hf Hst.
  - exists o, f. simpl. auto 10.
  - simpl. fold (run_Future_ops self ops (run_Future_op self op h)).
    destruct (run_Future_op_settled h self o f op Hs Hf Hst)
      as (o1 & f1 & Hs1 & Hf1 & E1 & E2 & E3).
    destruct (IH _ o1 f1 Hs1 Hf1) as (o' & f' & Hs' & Hf' & E1' & E2' & E3' & Hr);
      [congruence|].
    exists o', f'. repeat split; try congruence.
    rewrite Hr, (result_outcome _ _ _ _ Hs1 Hf1), (result_outcome _ _ _ _ Hs Hf).
    unfold outcome_of. now rewrite E1, E2, E3.
Qed.

Lemma settled_Future_is_final_witness :
  let h := snd (set_result 1 (VInt 7) h0) in
  fst (result 1
         (run_Future_ops 1
            [OpSetResult (VInt 8); OpCancel; OpSetException ValueError;
             OpAddDoneCallback (Fn 3); OpRemoveDoneCallback (Fn 3); OpResult]
            h))
  = Ok (VInt 7).
Proof.
  intros h.
  destruct (settled_Future_is_final 1
              [OpSetResult (VInt 8); OpCancel; OpSetException ValueError;
               OpAddDoneCallback (Fn 3); OpRemoveDoneCallback (Fn 3); OpResult]
              h _ _ eq_refl eq_refl) as (o' & f' & _ & _ & _ & _ & _ & Hr).
  - discriminate.
  - rewrite Hr. reflexivity.
Defined.

Lemma callbacks_for_app self hs1 hs2 :
  callbacks_for self (hs1 ++ hs2)
  = callbacks_for self hs1 ++ callbacks_for self hs2.
Proof. unfold callbacks_for. now rewrite List.filter_app, map_app. Qed.

Lemma callbacks_for_handles self cbs :
  callbacks_for self (map (handle_for self) cbs) = cbs.
Proof.
  induction cbs as [|cb cbs IH]; [reflexivity|].
  unfold callbacks_for in *. simpl.
  rewrite bool_decide_eq_true_2 by done. simpl. now rewrite IH.
Qed.

(** One call other than a removal: what it adds to the ready queue and what
    it leaves pending make up what was pending plus what it registers. *)
Lemma run_Future_op_schedules (h : heap) self o f ready op :
  h !! self = Some o -> fut_of o = Some f ->
  h !! _loop f = Some (OLoop ready) ->
  (_state f <> _PENDING -> _callbacks f = []) ->
  is_removal op = false ->
  exists o' f' new,
    run_Future_op self op h !! self = Some o' /\ fut_of o' = Some f' /\
    _loop f' = _loop f /\
    run_Future_op self op h !! _loop f = Some (OLoop (ready ++ new)) /\
    (_state f' <> _PENDING -> _callbacks f' = []) /\
    callbacks_for self new ++ _callbacks f' = _callbacks f ++ registered [op].
Proof.
  intros Hs Hf Hl Hinv Hop.
  pose proof (fut_not_loop _ _ _ _ _ _ Hs Hf Hl) as Hne.
  assert (Hnothing : exists o' f' new,
            h !! self = Some o' /\ fut_of o' = Some f' /\
            _loop f' = _loop f /\
            h !! _loop f = Some (OLoop (ready ++ new)) /\
            (_state f' <> _PENDING -> _callbacks f' = []) /\
            callbacks_for self new ++ _callbacks f' = _callbacks f ++ []).
  { exists o, f, []. rewrite !app_nil_r. auto 10. }
  assert (Hsettle : forall st v e, st <> _PENDING -> exists o' f' new,
            after_settle h self o f (settled st v e f) ready !! self = Some o' /\
            fut_of o' = Some f' /\ _loop f' = _loop f /\
            after_settle h self o f (settled st v e f) ready !! _loop f
            = Some (OLoop (ready ++ new)) /\
            (_state f' <> _PENDING -> _callbacks f' = []) /\
            callbacks_for self new ++ _callbacks f' = _callbacks f ++ []).
  { intros st v e Hst'. eexists _, _, _. unfold after_settle.
    rewrite lookup_insert_ne by auto. rewrite !lookup_insert_eq.
    split; [reflexivity|]. split; [eapply fut_of_with_fut; eauto|].
    split; [reflexivity|]. split; [reflexivity|]. split; [reflexivity|].
    simpl. now rewrite callbacks_for_handles. }
  destruct (decide (_state f = _PENDING)) as [Hp|Hp].
  - destruct op as [|v|e|fn|fn| |]; simpl; try discriminate Hop.
    + rewrite (Future_cancel_pending _ _ _ _ _ Hs Hf Hl Hp). simpl.
      now apply Hsettle.
    + rewrite (set_result_pending _ _ _ _ _ v Hs Hf Hl Hp). simpl.
      now apply Hsettle.
    + rewrite (set_exception_pending _ _ _ _ _ e Hs Hf Hl Hp). simpl.
      eexists _, _, _. rewrite lookup_insert_ne by auto.
      rewrite !lookup_insert_eq.
      split; [reflexivity|]. split; [eapply fut_of_with_fut; eauto|].
      split; [reflexivity|]. split; [reflexivity|]. split; [reflexivity|].
      simpl. rewrite callbacks_for_app, callbacks_for_handles.
      now rewrite !app_nil_r.
    + rewrite (add_done_callback_pending _ _ _ _ fn Hs Hf Hp). simpl.
      eexists _, _, []. rewrite lookup_insert_eq.
      rewrite lookup_insert_ne by auto.
      split; [reflexivity|]. split; [eapply fut_of_with_fut; eauto|].
      split; [reflexivity|]. split; [now rewrite app_nil_r|].
      split; [simpl; congruence|reflexivity].
    + now rewrite (result_pending _ _ _ _ Hs Hf Hp).
    + rewrite (exception_not_finished _ _ _ _ Hs Hf) by congruence.
      exact Hnothing.
  - specialize (Hinv Hp).
    destruct op as [|v|e|fn|fn| |]; simpl; try discriminate Hop.
    + now rewrite (Future_cancel_not_pending _ _ _ _ Hs Hf Hp).
    + now rewrite (set_result_not_pending _ _ _ _ v Hs Hf Hp).
    + now rewrite (set_exception_not_pending _ _ _ _ e Hs Hf Hp).
    + rewrite (add_done_callback_settled _ _ _ _ _ fn Hs Hf Hl Hp). simpl.
      exists o, f, [handle_for self fn]. rewrite lookup_insert_eq.
      rewrite lookup_insert_ne by auto.
      split; [exact Hs|]. split; [exact Hf|]. split; [reflexivity|].
      split; [reflexivity|]. split; [auto|].
      rewrite Hinv. unfold callbacks_for. simpl.
      now rewrite bool_decide_eq_true_2.
    + destruct (decide (_state f = _FINISHED)) as [Hfin|Hfin].
      * rewrite (result_finished _ _ _ _ Hs Hf Hfin). simpl.
        eexists _, _, []. rewrite lookup_insert_eq.
        rewrite lookup_insert_ne by auto.
        split; [reflexivity|]. split; [eapply fut_of_with_fut; eauto|].
        split; [reflexivity|]. split; [now rewrite app_nil_r|].
        split; [simpl; auto|simpl; now rewrite app_nil_r].
      * rewrite (result_cancelled _ _ _ _ Hs Hf); [exact Hnothing|].
        destruct (_state f); congruence.
    + destruct (decide (_state f = _FINISHED)) as [Hfin|Hfin].
      * rewrite (exception_finished _ _ _ _ Hs Hf Hfin). simpl.
        eexists _, _, []. rewrite lookup_insert_eq.
        rewrite lookup_insert_ne by auto.
        split; [reflexivity|]. split; [eapply fut_of_with_fut; eauto|].
        split; [reflexivity|]. split; [now rewrite app_nil_r|].
        split; [simpl; auto|simpl; now rewrite app_nil_r].
      * now rewrite (exception_not_finished _ _ _ _ Hs Hf Hfin).
Qed.

(** X4. No callback is lost and none is scheduled twice.  Start from a
    Future that holds no callback once settled, and call on it any sequence
    of [cancel], [set_result], [set_exception], [add_done_callback],
    [result] and [exception].  Then the callbacks of the handles enqueued for
    this Future, in queue order, followed by the callbacks still pending, are
    the callbacks pending at the start followed by those registered, in
    registration order; and once the Future has settled none is pending. *)
Theorem callbacks_scheduled_once_in_order (self : addr) (ops : list Future_op) :
  forall (h : heap) o f ready,
    h !! self = Some o -> fut_of o = Some f ->
    h !! _loop f = Some (OLoop ready) ->
    (_state f <> _PENDING -> _callbacks f = []) ->
    Forall (fun op => is_removal op = false) ops ->
    exists o' f' new,
      run_Future_ops self ops h !! self = Some o' /\ fut_of o' = Some f' /\
      run_Future_ops self ops h !! _loop f = Some (OLoop (ready ++ new)) /\
      (_state f' <> _PENDING -> _callbacks f' = []) /\
      callbacks_for self new ++ _callbacks f' = _callbacks f ++ registered ops.
Proof.
  induction ops as [|op ops IH]; intros h o f ready Hs Hf Hl Hinv Hops.
  - exists o, f, []. simpl. rewrite !app_nil_r. auto.
  - apply Forall_cons in Hops as [Hop Hops].
    simpl. fold (run_Future_ops self ops (run_Future_op self op h)).
    destruct (run_Future_op_schedules h self o f ready op Hs Hf Hl Hinv Hop)
      as (o1 & f1 & new1 & Hs1 & Hf1 & Hloop & Hl1 & Hinv1 & Heq1).
    rewrite <- Hloop in Hl1.
    destruct (IH _ o1 f1 _ Hs1 Hf1 Hl1 Hinv1 Hops)
      as (o' & f' & new2 & Hs' & Hf' & Hl' & Hinv' & Heq').
    rewrite Hloop in Hl'.
    exists o', f', (new1 ++ new2). split; [exact Hs'|]. split; [exact Hf'|].
    split; [now rewrite app_assoc|]. split; [exact Hinv'|].
    rewrite callbacks_for_app, <- app_assoc, Heq', app_assoc, Heq1.
    unfold registered. simpl. rewrite app_nil_r. now rewrite <- app_assoc.
Qed.

Lemma callbacks_scheduled_once_in_order_witness :
  exists new,
    run_Future_ops 1
      [OpAddDoneCallback (Fn 3); OpSetException ValueError; OpSetResult VNone;
       OpAddDoneCallback (Fn 4); OpResult] h0 !! 0
    = Some (OLoop new) /\
    callbacks_for 1 new = [Fn 1; Fn 2; Fn 3; Fn 4].
Proof.
  destruct (callbacks_scheduled_once_in_order 1
              [OpAddDoneCallback (Fn 3); OpSetException ValueError;
               OpSetResult VNone; OpAddDoneCallback (Fn 4); OpResult]
              h0 _ _ [] eq_refl eq_refl eq_refl)
    as (o' & f' & new & Hs & Hf & Hl & Hinv & Heq).
  - intros H. now contradiction H.
  - repeat constructor.
  - exists new. split; [exact Hl|].
    assert (Hst : _state f' <> _PENDING).
    { vm_compute in Hs. injection Hs as <-. injection Hf as <-. discriminate. }
    rewrite (Hinv Hst), app_nil_r in Heq. exact Heq.
Defined.

(** *** More on cancel *)

(** [Future.cancel] on a PENDING Future does not answer False. *)
Lemma Future_cancel_pending_answer (h h' : heap) x o f b :
  h !! x = Some o -> fut_of o = Some f -> _state f = _PENDING ->
  Future_cancel x h = (Ok b, h') -> b = true.
Proof.
  intros Hx Hf Hst. unfold Future_cancel.
  erewrite bind_ok by (eapply get_fut_ok; eauto).
  destruct (decide (_state f ≠ _PENDING)); [congruence|].
  unfold bind.
  destruct (modify_fut x (set_state _CANCELLED) h) as [[[]|e|] h2];
    try discriminate.
  destruct (_schedule_callbacks x h2) as [[[]|e|] h3]; try discriminate.
  unfold ret. now intros [= <- _].
Qed.

(** X5. [x.cancel()], on a Future or a Task, answers False exactly when [x]
    has settled already.  On a settled [x] the call returns False and changes
    nothing in the store, whatever [x] waits on; on a PENDING [x] no call
    answers False. *)
Theorem cancel_refuses_iff_settled n x (h : heap) o f :
  h !! x = Some o -> fut_of o = Some f ->
  (_state f <> _PENDING -> cancel (S n) x h = (Ok false, h)) /\
  (_state f = _PENDING -> forall m, fst (cancel m x h) <> Ok false).
Proof.
  intros Hx Hf. split.
  - intros Hp. simpl. rewrite Hx.
    destruct o as [rd|fx|fx tx]; [discriminate Hf| |];
      simpl in Hf; injection Hf as ->.
    + now apply (Future_cancel_not_pending _ _ _ _ Hx eq_refl).
    + rewrite (Task_cancel_unfold _ _ _ _ _ Hx).
      now destruct (decide (_state f ≠ _PENDING)).
  - intros Hp m. destruct m as [|m]; [discriminate|]. simpl. rewrite Hx.
    destruct o as [rd|fx|fx tx]; [discriminate Hf| |];
      simpl in Hf; injection Hf as ->.
    + destruct (Future_cancel x h) as [[[|]|e|] h'] eqn:E; try discriminate.
      pose proof (Future_cancel_pending_answer _ _ _ _ _ _ Hx eq_refl Hp E).
      discriminate.
    + rewrite (Task_cancel_unfold _ _ _ _ _ Hx).
      destruct (decide (_state f ≠ _PENDING)); [congruence|].
      destruct (_fut_waiter tx) as [w|]; [|discriminate].
      destruct (cancel m w h) as [[[|]|e|] h1]; try discriminate.
      unfold bind, modify_task, ret.
      destruct (h1 !! x) as [[| |]|]; discriminate.
Qed.

Lemma cancel_refuses_iff_settled_witness :
  let h := snd (set_result 2 VNone h_task) in
  cancel 2 2 h = (Ok false, h) /\
  fst (cancel 2 2 h_task) <> Ok false.
Proof.
  intros h.
  destruct (cancel_refuses_iff_settled 1 2 h _ _ eq_refl eq_refl)
    as [H1 _].
  destruct (cancel_refuses_iff_settled 1 2 h_task _ _ eq_refl eq_refl)
    as [_ H2].
  split; [apply H1; discriminate|apply H2; reflexivity].
Defined.

Lemma cancel_on_Task n (h : heap) x f t :
  h !! x = Some (OTask f t) -> cancel (S n) x h = Task_cancel (cancel n) x h.
Proof. intros Hx. simpl. now rewrite Hx. Qed.

(** Through a chain of waiting Tasks, [cancel] on the outermost is
    [Future.cancel] on the PENDING plain Future at the end. *)
Lemma cancel_chain_pending (h : heap) x fx :
  h !! x = Some (OFuture fx) ->
  forall chain,
    waits_on h chain x ->
    (_state fx = _PENDING ->
     forall ready, h !! _loop fx = Some (OLoop ready) ->
     cancel (S (length chain)) (hd x chain) h
     = (Ok true,
        after_settle h x (OFuture fx) fx
          (settled _CANCELLED (_result fx) (_exception fx) fx) ready)).
Proof.
  intros Hx. induction chain as [|t rest IH]; intros Hw Hp ready Hl.
  - cbn [length hd]. rewrite (cancel_on_Future _ _ _ _ Hx).
    now apply Future_cancel_pending.
  - destruct Hw as [(f & ta & Ht & Hst & Hwt) Hrest].
    cbn [length hd]. rewrite (cancel_on_Task _ _ _ _ _ Ht).
    rewrite (Task_cancel_unfold _ _ _ _ _ Ht).
    destruct (decide (_state f ≠ _PENDING)); [congruence|].
    rewrite Hwt. now rewrite (IH Hrest Hp ready Hl).
Qed.

(** When the Future at the end has settled, [cancel] on the outermost Task
    arms the pending-cancel flag of the innermost Task and nothing else
    changes. *)
Lemma cancel_chain_settled (h : heap) x fx :
  h !! x = Some (OFuture fx) -> _state fx <> _PENDING ->
  forall rest t,
    waits_on h (t :: rest) x ->
    exists tl fl tal,
      last (t :: rest) = Some tl /\ h !! tl = Some (OTask fl tal) /\
      cancel (S (S (length rest))) t h
      = (Ok true, <[tl := OTask fl (set_must_cancel true tal)]> h).
Proof.
  intros Hx Hs. induction rest as [|t2 rest IH]; intros t Hw.
  - destruct Hw as [(f & ta & Ht & Hst & Hwt) _]. simpl in Hwt.
    exists t, f, ta. split; [reflexivity|]. split; [exact Ht|].
    cbn [length]. rewrite (cancel_on_Task _ _ _ _ _ Ht).
    rewrite (Task_cancel_unfold _ _ _ _ _ Ht).
    destruct (decide (_state f ≠ _PENDING)); [congruence|].
    rewrite Hwt, (cancel_on_Future _ _ _ _ Hx).
    rewrite (Future_cancel_not_pending _ _ _ _ Hx eq_refl Hs).
    unfold bind, modify_task, ret. now rewrite Ht.
  - destruct Hw as [(f & ta & Ht & Hst & Hwt) Hrest]. simpl in Hwt.
    destruct (IH t2 Hrest) as (tl & fl & tal & Hlast & Htl & E).
    exists tl, fl, tal. split; [exact Hlast|]. split; [exact Htl|].
    cbn [length]. rewrite (cancel_on_Task _ _ _ _ _ Ht).
    rewrite (Task_cancel_unfold _ _ _ _ _ Ht).
    destruct (decide (_state f ≠ _PENDING)); [congruence|].
    rewrite Hwt. cbn [length] in E. now rewrite E.
Qed.

(** X6. Cancellation travels to the end of a chain of waiting Tasks.  When
    the plain Future at the end is PENDING, [cancel()] on the outermost Task
    cancels that Future (its callbacks are scheduled) and leaves every Task of
    the chain as it was.  When that Future has settled, the call arms the
    pending-cancel flag of the innermost Task only.  Both times the answer is
    True. *)
Theorem cancel_travels_down_the_chain (h : heap) x fx t rest ready :
  h !! x = Some (OFuture fx) ->
  h !! _loop fx = Some (OLoop ready) ->
  waits_on h (t :: rest) x ->
  (_state fx = _PENDING ->
   cancel (S (S (length rest))) t h
   = (Ok true,
      after_settle h x (OFuture fx) fx
        (settled _CANCELLED (_result fx) (_exception fx) fx) ready)) /\
  (_state fx <> _PENDING ->
   exists tl fl tal,
     last (t :: rest) = Some tl /\ h !! tl = Some (OTask fl tal) /\
     cancel (S (S (length rest))) t h
     = (Ok true, <[tl := OTask fl (set_must_cancel true tal)]> h)).
Proof.
  intros Hx Hl Hw. split.
  - intros Hp. exact (cancel_chain_pending h x fx Hx (t :: rest) Hw Hp ready Hl).
  - intros Hs. exact (cancel_chain_settled h x fx Hx Hs rest t Hw).
Qed.

Lemma cancel_travels_down_the_chain_witness :
  cancel 3 3 h_chain
  = (Ok true,
     <[0 := OLoop [handle_for 1 (Fn 1); handle_for 1 (Fn 2)]]>
       (<[1 := OFuture (mkFuture _CANCELLED VNone None 0 [] false None)]>
          h_chain)) /\
  must_cancel_at (snd (cancel 3 3 h_chain)) 3 = Some false /\
  must_cancel_at (snd (cancel 3 3 h_chain)) 2 = Some false.
Proof.
  destruct (cancel_travels_down_the_chain h_chain 1 fut0 3 [2] []
              eq_refl eq_refl) as [H1 _].
  - split; [|split; [|exact I]]; eexists _, _; repeat split; reflexivity.
  - pose proof (H1 eq_refl) as E.
    change (S (S (length [2]))) with 3 in E.
    rewrite E. repeat split; reflexivity.
Defined.

(** X7. Cancelling a Task twice.  The Task waits on a PENDING plain Future:
    the first [cancel()] cancels that Future and does not arm the flag of the
    Task; the waiter being settled now, a second [cancel()] arms the flag.
    Both answer True. *)
Theorem cancel_twice_arms_the_flag (h : heap) t f ta x fx ready n :
  h !! t = Some (OTask f ta) -> _state f = _PENDING ->
  _fut_waiter ta = Some x ->
  h !! x = Some (OFuture fx) -> _state fx = _PENDING ->
  h !! _loop fx = Some (OLoop ready) ->
  let h1 := after_settle h x (OFuture fx) fx
              (settled _CANCELLED (_result fx) (_exception fx) fx) ready in
  cancel (S (S n)) t h = (Ok true, h1) /\
  h1 !! t = Some (OTask f ta) /\
  cancel (S (S n)) t h1
  = (Ok true, <[t := OTask f (set_must_cancel true ta)]> h1).
Proof.
  intros Ht Hst Hwt Hx Hp Hl h1.
  assert (Htx : t <> x) by (intros ->; congruence).
  assert (Htl : t <> _loop fx) by (intros ->; congruence).
  assert (Hw : waits_on h [t] x) by (split; [now exists f, ta|exact I]).
  assert (Ht1 : h1 !! t = Some (OTask f ta))
    by (unfold h1, after_settle; now rewrite !lookup_insert_ne by auto).
  assert (Hx1 : h1 !! x
                = Some (OFuture
                          (settled _CANCELLED (_result fx) (_exception fx) fx))).
  { unfold h1, after_settle. rewrite lookup_insert_ne;
      [now rewrite lookup_insert_eq|].
    apply not_eq_sym. eapply fut_not_loop; eauto. }
  assert (Hw1 : waits_on h1 [t] x) by (split; [now exists f, ta|exact I]).
  split; [|split; [exact Ht1|]].
  - apply (cancel_fuel_mono 2); [|lia].
    exact (cancel_chain_pending h x fx Hx [t] Hw Hp ready Hl).
  - destruct (cancel_chain_settled h1 x _ Hx1 ltac:(discriminate) [] t Hw1)
      as (tl & fl & tal & [= <-] & Htl' & E).
    rewrite Ht1 in Htl'. injection Htl' as <- <-.
    apply (cancel_fuel_mono 2); [exact E|lia].
Qed.

Lemma cancel_twice_arms_the_flag_witness :
  fst (cancel 2 2 h_task) = Ok true /\
  must_cancel_at (snd (cancel 2 2 h_task)) 2 = Some false /\
  fst (cancel 2 2 (snd (cancel 2 2 h_task))) = Ok true /\
  must_cancel_at (snd (cancel 2 2 (snd (cancel 2 2 h_task)))) 2 = Some true.
Proof.
  destruct (cancel_twice_arms_the_flag h_task 2 _ _ 1 fut0 [] 0
              eq_refl eq_refl eq_refl eq_refl eq_refl eq_refl)
    as (H1 & _ & H3).
  rewrite H1. cbn [fst snd]. rewrite H3. repeat split; reflexivity.
Defined.

(** *** Task._wakeup *)

(** X8. [_wakeup(future)] resumes the Task once, with the outcome of the
    Future: the stored value; or, as an error, the stored [Exception],
    [CancelledError] for a cancelled Future, [InvalidStateError] for one that
    is still PENDING.  The outcome counts as retrieved before the Task is
    resumed (the traceback logger of a FINISHED Future is cleared).  A stored
    error that is not an [Exception] is raised to the caller and the Task is
    not resumed. *)
Theorem _wakeup_resumes_with_outcome
    (_step : addr -> pyval -> option exn -> M unit)
    (h : heap) self future o f :
  h !! future = Some o -> fut_of o = Some f ->
  let h1 := <[future := with_fut o (set_tb_logger None f)]> h in
  (_state f = _CANCELLED ->
   _wakeup _step self future h = _step self VNone (Some CancelledError) h) /\
  (_state f = _PENDING ->
   _wakeup _step self future h = _step self VNone (Some InvalidStateError) h) /\
  (_state f = _FINISHED -> _exception f = None ->
   _wakeup _step self future h = _step self (_result f) None h1) /\
  (_state f = _FINISHED -> forall e, _exception f = Some e ->
   _wakeup _step self future h
   = if is_Exception e then _step self VNone (Some e) h1 else (Raise e, h1)).
Proof.
  intros Hx Hf h1. unfold _wakeup. repeat split.
  - intros Hst. now rewrite (result_cancelled _ _ _ _ Hx Hf Hst).
  - intros Hst. now rewrite (result_pending _ _ _ _ Hx Hf Hst).
  - intros Hst He. rewrite (result_finished _ _ _ _ Hx Hf Hst). now rewrite He.
  - intros Hst e He. rewrite (result_finished _ _ _ _ Hx Hf Hst). now rewrite He.
Qed.

Lemma _wakeup_resumes_with_outcome_witness :
  let step : addr -> pyval -> option exn -> M unit :=
    fun self value exc =>
      modify_fut self (set_result_attr
                         (match exc with
                          | Some CancelledError => VStr "cancelled"
                          | Some _ => VStr "error"
                          | None => value
                          end)) in
  _wakeup step 2 1 (snd (cancel 2 2 h_task))
  = step 2 VNone (Some CancelledError) (snd (cancel 2 2 h_task)).
Proof.
  intros step.
  destruct (_wakeup_resumes_with_outcome step (snd (cancel 2 2 h_task)) 2 1
              _ _ eq_refl eq_refl) as (H1 & _).
  exact (H1 eq_refl).
Defined.

End AsyncioFacts.

(** ** Facts about events.py *)

Module EventsFacts.
Import Events.

Section WithEnv.
Context {env : Env}.

Lemma mbind_ok {A B} (m : M A) (k : A -> M B) h a h1 t1 :
  m h = (Ok a, h1, t1) ->
  mbind m k h = (let '(r, h2, t2) := k a h1 in (r, h2, t1 ++ t2)).
Proof. intros E. unfold mbind. now rewrite E. Qed.

Lemma lookup_obj_ok (h : heap) a o :
  h !! a = Some o -> lookup_obj a h = (Ok o, h, []).
Proof. intros E. unfold lookup_obj. now rewrite E. Qed.

Lemma get_events_ok (h : heap) self events :
  h !! self = Some (OEventHandler events) ->
  get_events self h = (Ok events, h, []).
Proof.
  intros Hs. unfold get_events.
  now rewrite (mbind_ok _ _ _ _ _ _ (lookup_obj_ok _ _ _ Hs)).
Qed.

(** A silenced Event does not fire. *)
Lemma Event_fire_silenced (h : heap) self hs n fuel arg kw :
  h !! self = Some (OEvent true hs n) ->
  Event_fire fuel self arg kw h = (Ok VNone, h, []).
Proof.
  intros Hs. unfold Event_fire.
  rewrite (mbind_ok _ _ _ _ _ _ (lookup_obj_ok _ _ _ Hs)). reflexivity.
Qed.

(** No operation on a silenced Event resets the flag, moves the fire count
    or does anything to a collaborator. *)
Lemma run_op_silenced (h : heap) self hs n fuel op :
  h !! self = Some (OEvent true hs n) ->
  exists r hs',
    run_op fuel self op h = (r, <[self := OEvent true hs' n]> h, []).
Proof.
  intros Hs. destruct op as [cbk [eb|]|arg kw|]; simpl.
  - unfold Event_bind. destruct (truth eb).
    + exists (Raise ValueError), hs. unfold raise. now rewrite insert_id.
    + exists (Ok tt), (hs ++ [cbk]).
      rewrite (mbind_ok _ _ _ _ _ _ (lookup_obj_ok _ _ _ Hs)). reflexivity.
  - exists (Ok tt), (hs ++ [cbk]). unfold Event_bind.
    rewrite (mbind_ok _ _ _ _ _ _ (lookup_obj_ok _ _ _ Hs)). reflexivity.
  - exists (Ok tt), hs.
    rewrite (mbind_ok _ _ _ _ _ _ (Event_fire_silenced _ _ _ _ fuel arg kw Hs)).
    unfold ret. now rewrite insert_id.
  - exists (Ok tt), hs. unfold silence.
    rewrite (mbind_ok _ _ _ _ _ _ (lookup_obj_ok _ _ _ Hs)). reflexivity.
Qed.

Lemma run_ops_silenced fuel self n : forall ops (h : heap) hs,
  h !! self = Some (OEvent true hs n) ->
  exists hs',
    run_ops fuel self ops h = (<[self := OEvent true hs' n]> h, []).
Proof.
  induction ops as [|op ops IH]; intros h hs Hs; simpl.
  - exists hs. now rewrite insert_id.
  - destruct (run_op_silenced h self hs n fuel op Hs) as (r & hs1 & ->).
    destruct (IH (<[self := OEvent true hs1 n]> h) hs1) as (hs2 & ->);
      [now rewrite lookup_insert_eq|].
    exists hs2. now rewrite insert_insert_eq.
Qed.

(** C9. [silence()] sets the flag of an Event.  From then on every [fire(x)]
    returns at once: no bound callback is called and the fire count stays
    where it was; and whatever is done with the Event afterwards ([bind],
    [fire], [silence], in any order and number) the flag stays set. *)
Theorem silenced_Event_stays_silent (h : heap) self silenced hs n :
  h !! self = Some (OEvent silenced hs n) ->
  silence self h = (Ok tt, <[self := OEvent true hs n]> h, []) /\
  (forall fuel x kw,
     Event_fire fuel self x kw (<[self := OEvent true hs n]> h)
     = (Ok VNone, <[self := OEvent true hs n]> h, [])) /\
  (forall fuel ops, exists hs',
     run_ops fuel self ops (<[self := OEvent true hs n]> h)
     = (<[self := OEvent true hs' n]> h, [])).
Proof.
  intros Hs. split; [|split].
  - unfold silence.
    rewrite (mbind_ok _ _ _ _ _ _ (lookup_obj_ok _ _ _ Hs)). reflexivity.
  - intros fuel x kw. eapply Event_fire_silenced. now rewrite lookup_insert_eq.
  - intros fuel ops.
    destruct (run_ops_silenced fuel self n ops
                (<[self := OEvent true hs n]> h) hs) as (hs' & E);
      [now rewrite lookup_insert_eq|].
    exists hs'. rewrite E. now rewrite insert_insert_eq.
Qed.

(** One turn of the loop of [Event.fire]: the handler at index [i] is called;
    an [Exception] it raises is logged, a generator it returns is handed to
    [async]; the loop goes on with the next index. *)
Lemma fire_handlers_step fuel self i x kw (h : heap) s hs n hnd :
  h !! self = Some (OEvent s hs n) -> hs !! i = Some hnd ->
  fire_handlers (S fuel) self i x kw h
  = let '(r, h1) := call hnd x kw h in
    match r with
    | Ok g =>
        let '(r2, h2, t2) := fire_handlers fuel self (S i) x kw h1 in
        (r2, h2,
         Called hnd x kw :: (if isgenerator g then [Async g] else []) ++ t2)
    | Raise e =>
        if is_Exception e then
          let '(r2, h2, t2) := fire_handlers fuel self (S i) x kw h1 in
          (r2, h2,
           Called hnd x kw :: Logged (ExceptionWhileFiringEvent e) :: t2)
        else (Raise e, h1, [Called hnd x kw])
    | OutOfFuel => (OutOfFuel, h1, [Called hnd x kw])
    end.
Proof.
  intros Hs Hi. simpl.
  rewrite (mbind_ok _ _ _ _ _ _ (lookup_obj_ok _ _ _ Hs)). rewrite Hi.
  unfold mbind, try_except, invoke.
  destruct (call hnd x kw h) as [[g|e|] h1]; simpl.
  - destruct (isgenerator g); simpl;
      now destruct (fire_handlers fuel self (S i) x kw h1) as [[r2 h2] t2].
  - destruct (is_Exception e); simpl; [|done].
    now destruct (fire_handlers fuel self (S i) x kw h1) as [[r2 h2] t2].
  - done.
Qed.

Lemma fire_handlers_end fuel self i x kw (h : heap) s hs n :
  h !! self = Some (OEvent s hs n) -> hs !! i = None ->
  fire_handlers (S fuel) self i x kw h = (Ok tt, h, []).
Proof.
  intros Hs Hi. simpl.
  rewrite (mbind_ok _ _ _ _ _ _ (lookup_obj_ok _ _ _ Hs)). now rewrite Hi.
Qed.

(** With any number of handlers, each of which comes back and leaves the
    Event itself alone, the loop ends and has called every handler from index
    [i] on once, in binding order. *)
Lemma fire_handlers_all self s hs n x kw :
  (forall hnd (h' : heap), hnd ∈ hs -> comes_back (fst (call hnd x kw h'))) ->
  (forall hnd (h' : heap) o,
     hnd ∈ hs ->
     h' !! self = Some o -> snd (call hnd x kw h') !! self = Some o) ->
  forall fuel i (h : heap),
    h !! self = Some (OEvent s hs n) -> length hs - i < fuel ->
    exists h' t,
      fire_handlers fuel self i x kw h = (Ok tt, h', t) /\
      h' !! self = Some (OEvent s hs n) /\
      calls_of t = map (fun hnd => Called hnd x kw) (drop i hs).
Proof.
  intros Hback Hframe.
  induction fuel as [|fuel IH]; intros i h Hs Hf; [lia|].
  destruct (hs !! i) as [hnd|] eqn:Hi.
  - assert (Hin : hnd ∈ hs) by (eapply list_elem_of_lookup_2; eauto).
    rewrite (fire_handlers_step _ _ _ _ _ _ _ _ _ _ Hs Hi).
    pose proof (Hback hnd h Hin) as Hb.
    pose proof (Hframe hnd h _ Hin Hs) as Hs1.
    destruct (call hnd x kw h) as [r h1]. simpl in Hb, Hs1.
    destruct (IH (S i) h1 Hs1) as (h' & t & E & Hs' & Hc);
      [apply lookup_lt_Some in Hi; lia|].
    rewrite (drop_S _ _ _ Hi). simpl.
    destruct r as [g|e|]; simpl in Hb; [|rewrite Hb|done]; rewrite E.
    + eexists _, _. split; [reflexivity|]. split; [exact Hs'|].
      simpl. f_equal. unfold calls_of in *.
      rewrite List.filter_app, Hc. now destruct (isgenerator g).
    + eexists _, _. split; [reflexivity|]. split; [exact Hs'|].
      simpl. f_equal. exact Hc.
  - rewrite (fire_handlers_end _ _ _ _ _ _ _ _ _ Hs Hi).
    apply lookup_ge_None in Hi. rewrite (drop_ge _ _ Hi).
    eexists _, _. split; [reflexivity|]. split; [exact Hs|reflexivity].
Qed.


(** A new object does not take the place of an old one. *)
Lemma fresh_lookup (h : heap) : h !! fresh (dom h) = None.
Proof. apply not_elem_of_dom. apply is_fresh. Qed.

Lemma fresh_ne (h : heap) a o : h !! a = Some o -> a <> fresh (dom h).
Proof. intros E ->. rewrite fresh_lookup in E. discriminate. Qed.

(** Unfold the monad and read the store with the facts at hand. *)
Ltac run_with H :=
  repeat (first [rewrite H | progress cbn
                | progress unfold mbind, lookup_obj, ret, raise, emit, store]).

(** C2 (as the code has it).  Of the usage errors at the boundary of an
    EventHandler, two are reported to the logger and turn the call into a
    no-op that returns [None]: an unknown name given to [fire_event], and a
    second [fire_event] of a one-time event that is not silenced.  The other
    two leave [fire_event] and [bind_event] as exceptions and nothing is
    reported: keyword arguments for a one-time event that is not silenced
    raise [ValueError], an errback given with a list of callbacks raises
    [AssertionError]; by then [bind_event] has registered a new, empty
    Event for the name if the handler did not know it, and has done nothing
    else. *)
Theorem usage_errors_at_the_boundary (h : heap) self events :
  h !! self = Some (OEventHandler events) ->
  (forall fuel name arg kw,
     events !! name = None ->
     fire_event fuel self name arg kw h
     = (Ok VNone, h, [Logged (UnknownEvent name self)])) /\
  (forall fuel name arg ot d inner o dd,
     events !! name = Some ot ->
     h !! ot = Some (OOneTime false d inner) ->
     h !! inner = Some o -> deferred_of o = Some dd -> d_called dd = true ->
     fire_event fuel self name arg [] h
     = (Ok VNone, h, [Logged (EventAlreadyFired name)])) /\
  (forall fuel name arg k kw ot d inner,
     events !! name = Some ot ->
     h !! ot = Some (OOneTime false d inner) ->
     fire_event fuel self name arg (k :: kw) h = (Raise ValueError, h, [])) /\
  (forall name cbks eb,
     bind_event self name (Several cbks) (Some eb) h
     = (Raise AssertionError,
        match events !! name with
        | Some _ => h
        | None =>
            <[self := OEventHandler (<[name := fresh (dom h)]> events)]>
              (<[fresh (dom h) := OEvent false [] 0]> h)
        end, [])).
Proof.
  intros Hs. split; [|split; [|split]].
  - intros fuel name arg kw Hn. unfold fire_event, get_events.
    run_with Hs. now rewrite Hn.
  - intros fuel name arg ot d inner o dd Hn Hot Hin Hd Hc.
    unfold fire_event, get_events. run_with Hs. rewrite Hn.
    unfold try_except, fire, OneTime_fire, get_OneTime, Deferred_callback,
      get_deferred.
    run_with Hot. run_with Hin. rewrite Hd. run_with Hc. reflexivity.
  - intros fuel name arg k kw ot d inner Hn Hot.
    unfold fire_event, get_events. run_with Hs. rewrite Hn.
    unfold try_except, fire, OneTime_fire, get_OneTime.
    run_with Hot. reflexivity.
  - intros name cbks eb. unfold bind_event, get_events. run_with Hs.
    destruct (events !! name) as [ev|] eqn:Hn.
    + run_with Hs. rewrite Hn. reflexivity.
    + unfold Event___init__, alloc. run_with Hs.
      rewrite lookup_insert_eq. cbn. rewrite lookup_insert_eq. cbn.
      reflexivity.
Qed.

End WithEnv.

(** *** EventHandler.__init__ *)

Lemma elem_of_event_names name class_names extra :
  name ∈ event_names class_names extra
  <-> name ∈ class_names \/ exists more, extra = Some more /\ name ∈ more.
Proof.
  unfold event_names. destruct extra as [[|x more]|].
  - split; [now left|]. intros [?|(? & [= <-] & H)]; [done|]. inversion H.
  - rewrite elem_of_elements, elem_of_union, !elem_of_list_to_set.
    split; intros [?|H]; eauto. destruct H as (? & [= <-] & ?). now right.
  - split; [now left|]. now intros [?|(? & ? & _)].
Qed.

Lemma Event___init___makes : makes Event___init__ (fun o => o = OEvent false [] 0).
Proof.
  intros h. exists (fresh (dom h)), (<[fresh (dom h) := OEvent false [] 0]> h),
    (OEvent false [] 0).
  split; [reflexivity|]. split; [apply fresh_lookup|].
  split; [now rewrite lookup_insert_eq|]. split; [reflexivity|].
  intros x ox Hx. rewrite lookup_insert_ne; auto.
  apply not_eq_sym. eapply fresh_ne; eauto.
Qed.

Lemma OneTime___init___makes :
  makes OneTime___init__
        (fun o => exists inner, o = OOneTime false new_Deferred inner).
Proof.
  intros h. unfold OneTime___init__, alloc, store, mbind, ret.
  set (a := fresh (dom h)).
  set (h1 := <[a := OOneTime false new_Deferred 0]> h).
  set (d := fresh (dom h1)).
  exists a, (<[a := OOneTime false new_Deferred d]>
               (<[d := ODeferred new_Deferred]> h1)),
    (OOneTime false new_Deferred d).
  split; [reflexivity|]. split; [apply fresh_lookup|].
  split; [now rewrite lookup_insert_eq|]. split; [now exists d|].
  intros x ox Hx.
  assert (x <> a) by (eapply fresh_ne; eauto).
  assert (h1 !! x = Some ox) by (unfold h1; now rewrite lookup_insert_ne).
  assert (x <> d) by (eapply fresh_ne; eauto).
  now rewrite !lookup_insert_ne by auto.
Qed.

(** Filling the dict: every name of the list ends up bound to an object made
    for it, the other names keep their entry, the store only grows. *)
Lemma update_events_spec make P :
  makes make P ->
  forall names events (h : heap), exists events' h',
    update_events make names events h = (Ok events', h', []) /\
    (forall x ox, h !! x = Some ox -> h' !! x = Some ox) /\
    (forall name, name ∈ names ->
       exists a o, events' !! name = Some a /\ h' !! a = Some o /\ P o) /\
    (forall name, name ∉ names -> events' !! name = events !! name).
Proof.
  intros Hmake. induction names as [|name names IH]; intros events h; simpl.
  - exists events, h. split; [reflexivity|]. split; [auto|].
    split; [|auto]. intros name H. inversion H.
  - destruct (Hmake h) as (a & h1 & o & Em & Hfresh & Ha & HP & Hgrow).
    destruct (IH (<[name := a]> events) h1)
      as (events' & h' & Eu & Hgrow' & Hin & Hout).
    exists events', h'. unfold mbind. rewrite Em, Eu.
    split; [reflexivity|]. split; [auto|]. split.
    + intros name0 H0.
      destruct (decide (name0 ∈ names)) as [Hn|Hn]; [auto|].
      apply elem_of_cons in H0 as [->|?]; [|done].
      exists a, o. rewrite (Hout _ Hn), lookup_insert_eq. auto.
    + intros name0 H0. apply not_elem_of_cons in H0 as [Hne Hn].
      now rewrite (Hout _ Hn), lookup_insert_ne.
Qed.

(** C10. A name given both as a one-time and as a many-times event name is
    bound to a repeatable Event once the handler is constructed: the dict is
    first filled with a OneTime for every one-time name, this one included,
    and the entry is then overwritten with a new Event. *)
Theorem init_collision_gives_Event (h : heap)
    (ONE_TIME_EVENTS MANY_TIMES_EVENTS : list string)
    (one_time_events many_times_events : option (list string)) name :
  name ∈ event_names ONE_TIME_EVENTS one_time_events ->
  name ∈ event_names MANY_TIMES_EVENTS many_times_events ->
  (exists events1 h1 a1 inner,
     update_events OneTime___init__
       (event_names ONE_TIME_EVENTS one_time_events) ∅
       (<[fresh (dom h) := OEventHandler ∅]> h) = (Ok events1, h1, []) /\
     events1 !! name = Some a1 /\
     h1 !! a1 = Some (OOneTime false new_Deferred inner)) /\
  (exists self h' events a,
     new_EventHandler ONE_TIME_EVENTS MANY_TIMES_EVENTS
                      one_time_events many_times_events h
     = (Ok self, h', []) /\
     h' !! self = Some (OEventHandler events) /\
     events !! name = Some a /\
     h' !! a = Some (OEvent false [] 0)).
Proof.
  intros Hone Hmany.
  set (self := fresh (dom h)). set (h0 := <[self := OEventHandler ∅]> h).
  destruct (update_events_spec _ _ OneTime___init___makes
              (event_names ONE_TIME_EVENTS one_time_events) ∅ h0)
    as (events1 & h1 & E1 & Hgrow1 & Hin1 & _).
  destruct (update_events_spec _ _ Event___init___makes
              (event_names MANY_TIMES_EVENTS many_times_events) events1 h1)
    as (events2 & h2 & E2 & Hgrow2 & Hin2 & _).
  split.
  - destruct (Hin1 _ Hone) as (a1 & o1 & He1 & Ha1 & inner & ->).
    exists events1, h1, a1, inner. auto.
  - destruct (Hin2 _ Hmany) as (a & o & He & Ha & ->).
    exists self, (<[self := OEventHandler events2]> h2), events2, a.
    assert (Hself : h2 !! self = Some (OEventHandler ∅)).
    { apply Hgrow2, Hgrow1. unfold h0. now rewrite lookup_insert_eq. }
    split.
    + unfold new_EventHandler, EventHandler___init__, alloc, store, mbind, ret.
      fold self. fold h0. now rewrite E1, E2.
    + split; [now rewrite lookup_insert_eq|]. split; [exact He|].
      rewrite lookup_insert_ne; [exact Ha|]. intros ->. congruence.
Qed.

Lemma init_collision_gives_Event_witness :
  exists self h' events a,
    new_EventHandler ["start"; "finish"] ["data"] None (Some ["start"]) ∅
    = (Ok self, h', []) /\
    h' !! self = Some (OEventHandler events) /\
    events !! "start" = Some a /\
    h' !! a = Some (OEvent false [] 0).
Proof.
  apply (init_collision_gives_Event ∅ ["start"; "finish"] ["data"] None
           (Some ["start"]) "start").
  - apply elem_of_event_names. left. apply list_elem_of_here.
  - apply elem_of_event_names. right. exists ["start"].
    split; [reflexivity|apply list_elem_of_here].
Defined.

(** *** EventHandler.copy_many_times_events *)

Section Copy.
Context {env : Env}.

(** Copying the handlers of the Event [a] from index [i] on into another
    Event [b] appends them to the handlers of [b]. *)
Lemma copy_handlers_Event (a b : addr) sa hsa na sb nb :
  a <> b ->
  forall fuel i (h : heap) hsb,
    h !! a = Some (OEvent sa hsa na) ->
    h !! b = Some (OEvent sb hsb nb) ->
    length hsa - i < fuel ->
    copy_handlers fuel a b i h
    = (Ok tt, <[b := OEvent sb (hsb ++ drop i hsa) nb]> h, []).
Proof.
  intros Hne. induction fuel as [|fuel IH]; intros i h hsb Ha Hb Hf; [lia|].
  simpl. rewrite (mbind_ok _ _ _ _ _ _ (lookup_obj_ok _ _ _ Ha)).
  destruct (hsa !! i) as [cbk|] eqn:Hi.
  - assert (Hbind : bind b cbk None h
                    = (Ok tt, <[b := OEvent sb (hsb ++ [cbk]) nb]> h, [])).
    { unfold bind, Event_bind.
      rewrite (mbind_ok _ _ _ _ _ _ (lookup_obj_ok _ _ _ Hb)).
      rewrite (mbind_ok _ _ _ _ _ _ (lookup_obj_ok _ _ _ Hb)). reflexivity. }
    rewrite (mbind_ok _ _ _ _ _ _ Hbind).
    rewrite (IH (S i) _ (hsb ++ [cbk])).
    + rewrite insert_insert_eq, <- app_assoc. simpl.
      now rewrite (drop_S _ _ _ Hi).
    + now rewrite lookup_insert_ne.
    + now rewrite lookup_insert_eq.
    + apply lookup_lt_Some in Hi. lia.
  - apply lookup_ge_None in Hi. rewrite (drop_ge _ _ Hi), app_nil_r.
    unfold ret. now rewrite insert_id.
Qed.

Variables (h : heap) (self other : addr) (evs evo : gmap string addr).
Variable fuel : nat.
Hypothesis Hself : h !! self = Some (OEventHandler evs).
Hypothesis Hkinds : forall n a b,
  evo !! n = Some a -> is_Event h a = true -> evs !! n = Some b ->
  is_Event h b = true.
Hypothesis Hsep : forall n m a b,
  evo !! n = Some a -> evs !! m = Some b -> a <> b.
Hypothesis Hinj : forall n m b,
  evs !! n = Some b -> evs !! m = Some b -> n = m.
Hypothesis Hfuel : forall n a sa hsa na,
  evo !! n = Some a -> h !! a = Some (OEvent sa hsa na) ->
  length hsa < fuel.

Lemma is_Event_true (h0 : heap) a :
  is_Event h0 a = true -> exists s hs n, h0 !! a = Some (OEvent s hs n).
Proof.
  unfold is_Event. destruct (h0 !! a) as [[]|]; try discriminate. eauto.
Qed.

(** The loop over the items of [other._events], from a store [hc] that still
    agrees with [h] on what the remaining items read and write. *)
Lemma copy_items_spec : forall (items : list (string * addr)) (hc : heap),
  NoDup items.*1 ->
  (forall n a, (n, a) ∈ items -> evo !! n = Some a) ->
  hc !! self = Some (OEventHandler evs) ->
  (forall n a, (n, a) ∈ items ->
     hc !! a = h !! a /\ forall b, evs !! n = Some b -> hc !! b = h !! b) ->
  exists h',
    for_each items (copy_item fuel self) hc = (Ok tt, h', []) /\
    (forall x,
       (forall n a, (n, a) ∈ items -> is_Event h a = true ->
                    evs !! n <> Some x) ->
       h' !! x = hc !! x) /\
    (forall n a b sa hsa na sb hsb nb,
       (n, a) ∈ items -> h !! a = Some (OEvent sa hsa na) ->
       evs !! n = Some b -> h !! b = Some (OEvent sb hsb nb) ->
       h' !! b = Some (OEvent sb (hsb ++ hsa) nb)).
Proof.
  induction items as [|[n a] items IH]; intros hc Hnd Hin Hs Hagree.
  - exists hc. split; [reflexivity|]. split; [auto|].
    intros ? ? ? ? ? ? ? ? ? H. inversion H.
  - simpl in Hnd. apply NoDup_cons in Hnd as [Hn Hnd].
    assert (Hevo : evo !! n = Some a) by (apply Hin; left).
    destruct (Hagree n a ltac:(left)) as [Hca Hcb].
    (* what this turn does *)
    assert (Hturn : exists h1,
      copy_item fuel self (n, a) hc = (Ok tt, h1, []) /\
      (forall x, (is_Event h a = true -> evs !! n <> Some x) ->
                 h1 !! x = hc !! x) /\
      (forall b sa hsa na sb hsb nb,
         h !! a = Some (OEvent sa hsa na) -> evs !! n = Some b ->
         h !! b = Some (OEvent sb hsb nb) ->
         h1 = <[b := OEvent sb (hsb ++ hsa) nb]> hc)).
    { unfold copy_item, isinstance_Event, mbind at 1.
      assert (is_Event hc a = is_Event h a) as -> by (unfold is_Event; now rewrite Hca).
      destruct (is_Event h a) eqn:Ea.
      - apply is_Event_true in Ea as Ha. destruct Ha as (sa & hsa & na & Ha).
        rewrite (mbind_ok _ _ _ _ _ _ (get_events_ok _ _ _ Hs)).
        cbn. destruct (evs !! n) as [b|] eqn:Hb.
        + destruct (is_Event_true _ _ (Hkinds _ _ _ Hevo Ea Hb))
            as (sb & hsb & nb & Hhb).
          assert (a <> b) by (eapply Hsep; eauto).
          rewrite (copy_handlers_Event a b sa hsa na sb nb ltac:(done)
                     fuel 0 hc hsb); cycle 1.
          * now rewrite Hca.
          * rewrite (Hcb b eq_refl). exact Hhb.
          * pose proof (Hfuel _ _ _ _ _ Hevo Ha). lia.
          * simpl. eexists. split; [reflexivity|]. split.
            -- intros x Hx. rewrite lookup_insert_ne; auto.
               intros ->. now apply Hx.
            -- intros b' sa' hsa' na' sb' hsb' nb' Ha' [= <-] Hb'.
               rewrite Ha in Ha'. injection Ha' as <- <- <-.
               rewrite Hhb in Hb'. now injection Hb' as <- <- <-.
        + exists hc. split; [reflexivity|]. split; [auto|]. discriminate.
      - exists hc. split; [reflexivity|]. split; [auto|].
        intros b sa hsa na sb hsb nb Ha. unfold is_Event in Ea.
        rewrite Ha in Ea. discriminate. }
    destruct Hturn as (h1 & E1 & Hother1 & Hcopied1).
    assert (Hnot_n : forall m c, (m, c) ∈ items -> m <> n).
    { intros m c Hm ->. apply Hn. apply list_elem_of_fmap. now exists (n, c). }
    destruct (IH h1 Hnd) as (h' & E' & Hother' & Hcopied').
    + intros m c Hm. apply Hin. now right.
    + rewrite Hother1; [exact Hs|]. intros Ea Hb.
      destruct (is_Event_true _ _ (Hkinds _ _ _ Hevo Ea Hb)) as (? & ? & ? & Hh).
      congruence.
    + intros m c Hm.
      destruct (Hagree m c ltac:(now right)) as [Hc1 Hc2].
      assert (Hevo' : evo !! m = Some c) by (apply Hin; now right).
      split.
      * rewrite Hother1; [exact Hc1|]. intros _ Hb. eapply Hsep; eauto.
      * intros b Hb. rewrite Hother1; [now apply Hc2|].
        intros _ Hb'. apply (Hnot_n m c Hm). eapply Hinj; eauto.
    + exists h'. simpl. rewrite (mbind_ok _ _ _ _ _ _ E1), E'.
      split; [reflexivity|]. split.
      * intros x Hx. rewrite Hother'.
        -- apply Hother1. intros Ea. apply (Hx n a); [left|done].
        -- intros m c Hm. apply Hx. now right.
      * intros m c b sa hsa na sb hsb nb Hm Ha Hb Hhb.
        apply elem_of_cons in Hm as [[= -> ->]|Hm].
        -- rewrite Hother'.
           ++ rewrite (Hcopied1 _ _ _ _ _ _ _ Ha Hb Hhb).
              now rewrite lookup_insert_eq.
           ++ intros m c Hm _ Hb'. apply (Hnot_n m c Hm). eapply Hinj; eauto.
        -- eapply Hcopied'; eauto.
Qed.

(** C8 (as the code has it).  Take two handlers that share no dispatcher,
    [self] having one dispatcher per name, and such that a name bound to a
    repeatable Event in [other] is not bound to a OneTime in [self].  Then
    [copy_many_times_events(other)] appends, for every name bound to an Event
    in both, the callbacks of the Event of [other] to those of the Event of
    [self], in order.  The two handlers and all dispatchers of [other] are as
    before; so is every object that is not an Event, the OneTime dispatchers
    among them, and every dispatcher of [self] whose name [other] does not
    bind to an Event. *)
Theorem copy_many_times_events_spec :
  h !! other = Some (OEventHandler evo) ->
  exists h',
    copy_many_times_events fuel self other h = (Ok tt, h', []) /\
    (forall n a b sa hsa na sb hsb nb,
       evo !! n = Some a -> h !! a = Some (OEvent sa hsa na) ->
       evs !! n = Some b -> h !! b = Some (OEvent sb hsb nb) ->
       h' !! b = Some (OEvent sb (hsb ++ hsa) nb)) /\
    h' !! self = h !! self /\
    h' !! other = h !! other /\
    (forall n a, evo !! n = Some a -> h' !! a = h !! a) /\
    (forall x, is_Event h x = false -> h' !! x = h !! x) /\
    (forall n b,
       evs !! n = Some b ->
       (forall a, evo !! n = Some a -> is_Event h a = false) ->
       h' !! b = h !! b).
Proof.
  intros Hother.
  destruct (copy_items_spec (map_to_list evo) h) as (h' & E & Hrest & Hcopied).
  - apply NoDup_fst_map_to_list.
  - intros n a. apply elem_of_map_to_list.
  - exact Hself.
  - auto.
  - assert (Hkeep : forall x, is_Event h x = false -> h' !! x = h !! x).
    { intros x Hx. apply Hrest. intros n a Hna Ea Hb.
      apply elem_of_map_to_list in Hna.
      rewrite (Hkinds n a x Hna Ea Hb) in Hx. discriminate. }
    exists h'. split; [|split; [|split; [|split; [|split; [|split]]]]].
    + unfold copy_many_times_events, isinstance_EventHandler, mbind at 1.
      rewrite Hother. cbn.
      rewrite (mbind_ok _ _ _ _ _ _ (get_events_ok _ _ _ Hself)).
      rewrite (mbind_ok _ _ _ _ _ _ (get_events_ok _ _ _ Hother)).
      now rewrite E.
    + intros n a b sa hsa na sb hsb nb Hn. eapply Hcopied.
      now apply elem_of_map_to_list.
    + apply Hkeep. unfold is_Event. now rewrite Hself.
    + apply Hkeep. unfold is_Event. now rewrite Hother.
    + intros n a Hn. apply Hrest. intros m c Hm _ Hb.
      apply elem_of_map_to_list in Hm. now apply (Hsep n m a a).
    + exact Hkeep.
    + intros n b Hb Hno. apply Hrest. intros m c Hm Ec Hb'.
      apply elem_of_map_to_list in Hm.
      assert (m = n) as -> by (eapply Hinj; eauto).
      rewrite (Hno c Hm) in Ec. discriminate.
Qed.

End Copy.

Lemma copy_many_times_events_spec_witness :
  exists h',
    copy_many_times_events (env := sample_env) 3 0 1 h_copy
    = (Ok tt, h', []) /\
    h' !! 2 = Some (OEvent false [Fn 1; Fn 2; Fn 3] 0) /\
    h' !! 3 = Some (OEvent false [Fn 2; Fn 3] 5) /\
    h' !! 6 = Some (OOneTime false new_Deferred 7) /\
    h' !! 7 = Some (ODeferred new_Deferred).
Proof.
  destruct (copy_many_times_events_spec (env := sample_env) h_copy 0 1
              (<["data" := 2]> {["start" := 6]}) {["data" := 3]} 3)
    as (h' & E & Hcopied & _ & _ & Hother & Hkeep & _).
  - reflexivity.
  - intros n a b [<- <-]%lookup_singleton_Some _.
    rewrite lookup_insert_eq. now intros [= <-].
  - intros n m a b [<- <-]%lookup_singleton_Some.
    intros [[<- <-]|[_ [<- <-]%lookup_singleton_Some]]%lookup_insert_Some;
      discriminate.
  - intros n m b.
    intros [[<- <-]|[? [<- <-]%lookup_singleton_Some]]%lookup_insert_Some
           [[<- ?]|[? [<- ?]%lookup_singleton_Some]]%lookup_insert_Some;
      congruence.
  - intros n a sa hsa na [<- <-]%lookup_singleton_Some Ha.
    vm_compute in Ha. injection Ha as <- <- <-. simpl. lia.
  - reflexivity.
  - exists h'. split; [exact E|]. split; [|split; [|split]].
    + apply (Hcopied "data" 3 2 false [Fn 2; Fn 3] 5%Z false [Fn 1] 0%Z);
        reflexivity.
    + exact (Hother "data" 3 eq_refl).
    + exact (Hkeep 6 eq_refl).
    + exact (Hkeep 7 eq_refl).
Defined.

(** Why the handlers must not share a dispatcher: copying the handlers of an
    Event into that same Event walks a list that grows by one at every turn,
    and no amount of fuel is enough. *)
Lemma copy_handlers_into_itself_never_ends (a : addr) s n :
  forall fuel i (h : heap) hs,
    h !! a = Some (OEvent s hs n) -> i < length hs ->
    fst (fst (copy_handlers (env := sample_env) fuel a a i h)) = OutOfFuel.
Proof.
  induction fuel as [|fuel IH]; intros i h hs Ha Hi; [reflexivity|].
  simpl. rewrite (mbind_ok _ _ _ _ _ _ (lookup_obj_ok _ _ _ Ha)).
  destruct (lookup_lt_is_Some_2 hs i Hi) as [cbk Hc]. rewrite Hc.
  assert (Hbind : bind (env := sample_env) a cbk None h
                  = (Ok tt, <[a := OEvent s (hs ++ [cbk]) n]> h, [])).
  { unfold bind, Event_bind.
    rewrite (mbind_ok _ _ _ _ _ _ (lookup_obj_ok _ _ _ Ha)).
    rewrite (mbind_ok _ _ _ _ _ _ (lookup_obj_ok _ _ _ Ha)). reflexivity. }
  rewrite (mbind_ok _ _ _ _ _ _ Hbind).
  specialize (IH (S i) (<[a := OEvent s (hs ++ [cbk]) n]> h) (hs ++ [cbk])).
  destruct (copy_handlers fuel a a (S i) _) as [[r h2] t2]. simpl in *.
  apply IH; [now rewrite lookup_insert_eq|]. rewrite length_app. simpl. lia.
Qed.

Lemma copy_from_itself_never_ends fuel :
  fst (fst (copy_many_times_events (env := sample_env) fuel 0 0 h_single))
  = OutOfFuel.
Proof.
  assert (H0 : h_single !! 0 = Some (OEventHandler {["data" := 1]}))
    by reflexivity.
  assert (H1 : isinstance_EventHandler 0 h_single = (Ok true, h_single, []))
    by reflexivity.
  assert (H2 : isinstance_Event 1 h_single = (Ok true, h_single, []))
    by reflexivity.
  assert (HX : fst (fst (copy_item (env := sample_env) fuel 0 ("data", 1)
                           h_single)) = OutOfFuel).
  { unfold copy_item.
    rewrite (mbind_ok _ _ _ _ _ _ H2).
    rewrite (mbind_ok _ _ _ _ _ _ (get_events_ok _ _ _ H0)).
    rewrite lookup_singleton_eq.
    pose proof (copy_handlers_into_itself_never_ends 1 false 0%Z fuel 0
                  h_single [Fn 1] eq_refl ltac:(simpl; lia)) as H.
    destruct (copy_handlers fuel 1 1 0 h_single) as [[r h2] t2].
    simpl in H. now subst r. }
  unfold copy_many_times_events.
  rewrite (mbind_ok _ _ _ _ _ _ H1).
  rewrite (mbind_ok _ _ _ _ _ _ (get_events_ok _ _ _ H0)).
  rewrite (mbind_ok _ _ _ _ _ _ (get_events_ok _ _ _ H0)).
  rewrite map_to_list_singleton. cbn [for_each]. unfold mbind at 1.
  match goal with
  | |- context [copy_item ?f ?a ?p ?h] =>
      destruct (copy_item f a p h) as [[r h2] t2] eqn:E
  end.
  assert (r = OutOfFuel) as ->
    by (change (fst (fst (r, h2, t2)) = OutOfFuel); rewrite <- E; exact HX).
  reflexivity.
Qed.

(** C8 as stated fails: [other] binds [start] to a repeatable Event, [self]
    binds it to a OneTime, and the callback of the Event is bound to that
    OneTime: it is queued on its inner Deferred. *)
Lemma copy_touches_OneTime_counterexample :
  let h' := snd (fst (copy_many_times_events (env := sample_env) 5 0 1
                        h_mixed)) in
  fst (fst (copy_many_times_events (env := sample_env) 5 0 1 h_mixed))
  = Ok tt /\
  h_mixed !! 2 = Some (OOneTime false new_Deferred 3) /\
  h_mixed !! 3 = Some (ODeferred new_Deferred) /\
  h' !! 3 = Some (ODeferred (mkDeferred false VNone [(Fn 7, None)] None)) /\
  ~ (forall x s d e, h_mixed !! x = Some (OOneTime s d e) ->
                     h' !! e = h_mixed !! e).
Proof.
  intros h'. split; [reflexivity|]. split; [reflexivity|].
  split; [reflexivity|]. split; [reflexivity|].
  intros H. specialize (H 2 false new_Deferred 3 eq_refl).
  vm_compute in H. discriminate H.
Qed.

Lemma usage_errors_at_the_boundary_witness :
  fire_event (env := sample_env) 4 0 "stop" (VStr "v") [] h_handler
  = (Ok VNone, h_handler, [Logged (UnknownEvent "stop" 0)]) /\
  (let h1 := snd (fst (fire_event (env := sample_env) 4 0 "start"
                         (VStr "v1") [] h_handler)) in
   fire_event (env := sample_env) 4 0 "start" (VStr "v2") [] h1
   = (Ok VNone, h1, [Logged (EventAlreadyFired "start")])) /\
  fire_event (env := sample_env) 4 0 "start" (VStr "v1")
             [("key", VInt 1)] h_handler
  = (Raise ValueError, h_handler, []) /\
  bind_event (env := sample_env) 0 "data" (Several [Fn 1; Fn 2])
             (Some (Fn 9)) h_handler
  = (Raise AssertionError, h_handler, []) /\
  bind_event (env := sample_env) 0 "extra" (Several [Fn 1; Fn 2])
             (Some (Fn 9)) h_handler
  = (Raise AssertionError,
     <[0 := OEventHandler
              (<["extra" := 4]> (<["start" := 1]> (<["data" := 3]> ∅)))]>
       (<[4 := OEvent false [] 0]> h_handler), []).
Proof.
  destruct (usage_errors_at_the_boundary (env := sample_env) h_handler 0 _
              eq_refl) as (H1 & _ & H3 & H4).
  split; [exact (H1 4 "stop" (VStr "v") [] eq_refl)|].
  split.
  - intros h1.
    destruct (usage_errors_at_the_boundary (env := sample_env) h1 0 _
                eq_refl) as (_ & H2 & _).
    exact (H2 4 "start" (VStr "v2") 1 _ 2 _ _
              eq_refl eq_refl eq_refl eq_refl eq_refl).
  - split.
    + exact (H3 4 "start" (VStr "v1") ("key", VInt 1) [] 1 _ 2
                eq_refl eq_refl).
    + split; [exact (H4 "data" [Fn 1; Fn 2] (Fn 9))|].
      exact (H4 "extra" [Fn 1; Fn 2] (Fn 9)).
Defined.

(** C2 as stated fails: keyword arguments on the one-time event [start] make
    [fire_event] raise [ValueError]; nothing reaches the logger and the call
    does not return. *)
Lemma fire_event_kwargs_counterexample :
  fire_event (env := sample_env) 4 0 "start" (VStr "v1")
             [("key", VInt 1)] h_handler
  = (Raise ValueError, h_handler, []) /\
  ~ (exists v h' t,
       fire_event (env := sample_env) 4 0 "start" (VStr "v1")
                  [("key", VInt 1)] h_handler = (Ok v, h', t)).
Proof.
  split; [vm_compute; reflexivity|].
  intros (v & h' & t & E). vm_compute in E. discriminate E.
Qed.


Lemma silenced_Event_stays_silent_witness :
  silence 0 h_event
  = (Ok tt, <[0 := OEvent true [Fn 1; Fn 2; Fn 3] 0]> h_event, []) /\
  @run_ops sample_env 9 0
     [OpSilence; OpFire (VStr "x") []; OpBind (Fn 4) None; OpFire VNone []]
     h_event
  = (<[0 := OEvent true [Fn 1; Fn 2; Fn 3; Fn 4] 0]> h_event, []).
Proof.
  destruct (@silenced_Event_stays_silent sample_env h_event 0 false
              [Fn 1; Fn 2; Fn 3] 0 eq_refl) as (H1 & _ & _).
  split; [exact H1|]. vm_compute. reflexivity.
Defined.

(** *** More about EventHandler and Event *)

Section More.
Context {env : Env}.

Lemma try_except_ok {A} (m : M A) handled handler (h h1 : heap) a t :
  m h = (Ok a, h1, t) -> try_except m handled handler h = (Ok a, h1, t).
Proof. intros E. unfold try_except. now rewrite E. Qed.

Lemma bind_Event_ok (h : heap) a s hs n c :
  h !! a = Some (OEvent s hs n) ->
  bind a c None h = (Ok tt, <[a := OEvent s (hs ++ [c]) n]> h, []).
Proof.
  intros Ha. unfold bind, Event_bind.
  rewrite (mbind_ok _ _ _ _ _ _ (lookup_obj_ok _ _ _ Ha)).
  now rewrite (mbind_ok _ _ _ _ _ _ (lookup_obj_ok _ _ _ Ha)).
Qed.

(** Binding a list of callbacks to an Event appends them in order. *)
Lemma bind_all_Event a s n : forall cbks (h : heap) hs,
  h !! a = Some (OEvent s hs n) ->
  for_each cbks (fun c => bind a c None) h
  = (Ok tt, <[a := OEvent s (hs ++ cbks) n]> h, []).
Proof.
  induction cbks as [|c cbks IH]; intros h hs Ha; simpl.
  - rewrite app_nil_r. unfold ret. now rewrite insert_id.
  - rewrite (mbind_ok _ _ _ _ _ _ (bind_Event_ok _ _ _ _ _ c Ha)).
    rewrite (IH _ (hs ++ [c])) by now rewrite lookup_insert_eq.
    now rewrite insert_insert_eq, <- app_assoc.
Qed.

(** [bind_event] on a name the handler binds to a repeatable Event. *)
Lemma bind_event_known_Event (h : heap) self evs name a s hs n cbk :
  h !! self = Some (OEventHandler evs) -> evs !! name = Some a ->
  h !! a = Some (OEvent s hs n) ->
  bind_event self name cbk None h
  = (Ok tt, <[a := OEvent s (hs ++ cbks_of cbk) n]> h, []).
Proof.
  intros Hs Hn Ha. unfold bind_event.
  rewrite (mbind_ok _ _ _ _ _ _ (get_events_ok _ _ _ Hs)).
  rewrite Hn. unfold mbind at 1, ret at 1.
  rewrite (mbind_ok _ _ _ _ _ _ (get_events_ok _ _ _ Hs)). rewrite Hn.
  destruct cbk as [c|cs].
  - now rewrite (bind_Event_ok _ _ _ _ _ c Ha).
  - unfold mbind, ret. now rewrite (bind_all_Event a s n cs h hs Ha).
Qed.

(** X9. [bind_event] with a name the handler does not know registers a new
    repeatable Event under that name (never a OneTime) with the callbacks
    bound in order.  With a single callback and an errback, the errback
    decides by its truth value: one that is true has the binding refused
    with [ValueError], and the Event stays registered, empty; one that is
    false is ignored and the callback is bound. *)
Theorem bind_event_registers_unknown_name (h : heap) self evs name :
  h !! self = Some (OEventHandler evs) -> evs !! name = None ->
  let a := fresh (dom h) in
  let h1 := <[self := OEventHandler (<[name := a]> evs)]> h in
  (forall cbk,
     bind_event self name cbk None h
     = (Ok tt, <[a := OEvent false (cbks_of cbk) 0]> h1, [])) /\
  (forall c eb,
     bind_event self name (Single c) (Some eb) h
     = if truth eb
       then (Raise ValueError, <[a := OEvent false [] 0]> h1, [])
       else (Ok tt, <[a := OEvent false [c] 0]> h1, [])).
Proof.
  intros Hs Hn a h1.
  assert (Hne : self <> a) by (eapply fresh_ne; eauto).
  set (h2 := <[self := OEventHandler (<[name := a]> evs)]>
               (<[a := OEvent false [] 0]> h)).
  assert (Hcreate : forall cbk eb,
    bind_event self name cbk eb h
    = (let* events := get_events self in
       match events !! name with
       | None => raise AttributeError
       | Some event =>
           match cbk with
           | Several cbks =>
               match eb with
               | Some _ => raise AssertionError
               | None => ret tt
               end >>
               for_each cbks (fun c => bind event c None)
           | Single c => bind event c eb
           end
       end) h2).
  { intros cbk eb. unfold bind_event.
    rewrite (mbind_ok _ _ _ _ _ _ (get_events_ok _ _ _ Hs)).
    rewrite Hn. unfold mbind at 1 2, Event___init__, alloc, store.
    fold a. fold h2.
    now destruct (mbind _ _ h2) as [[r h3] t3]. }
  assert (Hs2 : h2 !! self = Some (OEventHandler (<[name := a]> evs)))
    by (unfold h2; now rewrite lookup_insert_eq).
  assert (Ha2 : h2 !! a = Some (OEvent false [] 0)).
  { unfold h2. rewrite lookup_insert_ne by auto. now rewrite lookup_insert_eq. }
  assert (Hswap : forall o, <[a := o]> h2 = <[a := o]> h1).
  { intros o. unfold h2, h1. rewrite (insert_insert_ne _ self a) by auto.
    now rewrite insert_insert_eq. }
  split.
  - intros cbk. rewrite Hcreate.
    rewrite (mbind_ok _ _ _ _ _ _ (get_events_ok _ _ _ Hs2)).
    rewrite lookup_insert_eq. destruct cbk as [c|cs].
    + rewrite (bind_Event_ok _ _ _ _ _ c Ha2). now rewrite Hswap.
    + unfold mbind, ret. rewrite (bind_all_Event a false 0%Z cs h2 [] Ha2).
      cbn. now rewrite Hswap.
  - intros c eb. rewrite Hcreate.
    rewrite (mbind_ok _ _ _ _ _ _ (get_events_ok _ _ _ Hs2)).
    rewrite lookup_insert_eq. cbn. unfold bind.
    rewrite (mbind_ok _ _ _ _ _ _ (lookup_obj_ok _ _ _ Ha2)). cbn.
    unfold Event_bind. destruct (truth eb).
    + unfold raise. rewrite <- Hswap. f_equal. f_equal.
      now rewrite insert_id.
    + rewrite (mbind_ok _ _ _ _ _ _ (lookup_obj_ok _ _ _ Ha2)).
      unfold store. cbn. now rewrite Hswap.
Qed.

End More.

Lemma bind_event_registers_unknown_name_witness :
  let h1 := <[0 := OEventHandler
                     (<["extra" := 4]> (<["start" := 1]> (<["data" := 3]> ∅)))]>
              h_handler in
  bind_event (env := sample_env) 0 "extra" (Several [Fn 1; Fn 2]) None
             h_handler
  = (Ok tt, <[4 := OEvent false [Fn 1; Fn 2] 0]> h1, []) /\
  bind_event (env := sample_env) 0 "extra" (Single (Fn 1)) (Some (Fn 2))
             h_handler
  = (Raise ValueError, <[4 := OEvent false [] 0]> h1, []) /\
  bind_event (env := sample_env) 0 "extra" (Single (Fn 1)) (Some (Fn 9))
             h_handler
  = (Ok tt, <[4 := OEvent false [Fn 1] 0]> h1, []).
Proof.
  intros h1.
  destruct (bind_event_registers_unknown_name (env := sample_env) h_handler 0
              _ "extra" eq_refl eq_refl) as [H1 H2].
  split; [exact (H1 (Several [Fn 1; Fn 2]))|].
  split; [exact (H2 (Fn 1) (Fn 2))|exact (H2 (Fn 1) (Fn 9))].
Defined.

Section Firing.
Context {env : Env}.

(** [Event.fire] with handlers that come back and leave the Event alone:
    every handler is called once, in binding order, and the count moves by
    one. *)
Lemma Event_fire_all (h : heap) a hs n x kw fuel :
  h !! a = Some (OEvent false hs n) ->
  (forall hnd (h' : heap), hnd ∈ hs -> comes_back (fst (call hnd x kw h'))) ->
  (forall hnd (h' : heap) o,
     hnd ∈ hs -> h' !! a = Some o -> snd (call hnd x kw h') !! a = Some o) ->
  length hs < fuel ->
  exists h2 t,
    Event_fire fuel a x kw h = (Ok VNone, h2, t) /\
    h2 !! a = Some (OEvent false hs (n + 1)) /\
    calls_of t = map (fun hnd => Called hnd x kw) hs.
Proof.
  intros Ha Hback Hframe Hfuel.
  destruct (fire_handlers_all a false hs (n + 1)%Z x kw Hback Hframe fuel 0
              (<[a := OEvent false hs (n + 1)]> h))
    as (h2 & t & E & Ha2 & Hc); [now rewrite lookup_insert_eq|lia|].
  exists h2, t. split; [|split; [exact Ha2|exact Hc]].
  unfold Event_fire.
  rewrite (mbind_ok _ _ _ _ _ _ (lookup_obj_ok _ _ _ Ha)). cbn [negb].
  unfold mbind, store, ret. rewrite E. now rewrite app_nil_r.
Qed.

(** X10. What is bound is what is called.  After [bind_event(name, cbk)] on
    a repeatable event that is not silenced, [fire_event(name, arg)] calls
    the callbacks bound before and the new ones, once each and in binding
    order, with [arg], or with the handler itself when [arg] is [None]; the
    fire count moves by one and the call answers [None].  The callbacks are
    taken to come back (return, or raise an [Exception]) and not to change
    this Event themselves. *)
Theorem bind_event_then_fire_event (h : heap) self evs name a hs n cbk arg kw
    fuel :
  h !! self = Some (OEventHandler evs) -> evs !! name = Some a ->
  h !! a = Some (OEvent false hs n) ->
  let all := hs ++ cbks_of cbk in
  let x := match arg with
           | VNone => VRef self
           | _ => arg
           end in
  (forall hnd (h' : heap), hnd ∈ all -> comes_back (fst (call hnd x kw h'))) ->
  (forall hnd (h' : heap) o,
     hnd ∈ all -> h' !! a = Some o -> snd (call hnd x kw h') !! a = Some o) ->
  length all < fuel ->
  exists h2 t,
    (bind_event self name cbk None >> fire_event fuel self name arg kw) h
    = (Ok VNone, h2, t) /\
    calls_of t = map (fun hnd => Called hnd x kw) all /\
    h2 !! a = Some (OEvent false all (n + 1)).
Proof.
  intros Hs Hn Ha all x Hback Hframe Hfuel.
  assert (Hne : a <> self) by (intros ->; congruence).
  set (h1 := <[a := OEvent false all n]> h).
  assert (Hs1 : h1 !! self = Some (OEventHandler evs))
    by (unfold h1; now rewrite lookup_insert_ne).
  assert (Ha1 : h1 !! a = Some (OEvent false all n))
    by (unfold h1; now rewrite lookup_insert_eq).
  destruct (Event_fire_all h1 a all n x kw fuel Ha1 Hback Hframe Hfuel)
    as (h2 & t & E & Ha2 & Hc).
  exists h2, t. split; [|split; [exact Hc|exact Ha2]].
  rewrite (mbind_ok _ _ _ _ _ _
             (bind_event_known_Event _ _ _ _ _ _ _ _ cbk Hs Hn Ha)).
  fold all. fold h1. unfold fire_event. fold x.
  rewrite (mbind_ok _ _ _ _ _ _ (get_events_ok _ _ _ Hs1)). rewrite Hn.
  erewrite try_except_ok; [reflexivity|].
  unfold fire. rewrite (mbind_ok _ _ _ _ _ _ (lookup_obj_ok _ _ _ Ha1)).
  now rewrite E.
Qed.

(** X11. [silence_event] with a name the handler does not know does nothing.
    With a known name it silences the dispatcher, repeatable or one-time, and
    from then on [fire_event] with that name answers [None] and does nothing
    at all: no callback is called, nothing is logged, and for a one-time
    event neither keyword arguments nor an earlier firing are reported. *)
Theorem silence_event_then_fire_event (h : heap) self evs :
  h !! self = Some (OEventHandler evs) ->
  (forall name, evs !! name = None ->
     silence_event self name h = (Ok tt, h, [])) /\
  (forall name a s hs n,
     evs !! name = Some a -> h !! a = Some (OEvent s hs n) ->
     let h1 := <[a := OEvent true hs n]> h in
     silence_event self name h = (Ok tt, h1, []) /\
     forall fuel arg kw,
       fire_event fuel self name arg kw h1 = (Ok VNone, h1, [])) /\
  (forall name a s d inner,
     evs !! name = Some a -> h !! a = Some (OOneTime s d inner) ->
     let h1 := <[a := OOneTime true d inner]> h in
     silence_event self name h = (Ok tt, h1, []) /\
     forall fuel arg kw,
       fire_event fuel self name arg kw h1 = (Ok VNone, h1, [])).
Proof.
  intros Hs. split; [|split].
  - intros name Hn. unfold silence_event.
    rewrite (mbind_ok _ _ _ _ _ _ (get_events_ok _ _ _ Hs)). now rewrite Hn.
  - intros name a s hs n Hn Ha h1.
    assert (Hne : a <> self) by (intros ->; congruence).
    assert (Hs1 : h1 !! self = Some (OEventHandler evs))
      by (unfold h1; now rewrite lookup_insert_ne).
    assert (Ha1 : h1 !! a = Some (OEvent true hs n))
      by (unfold h1; now rewrite lookup_insert_eq).
    split.
    + unfold silence_event, silence.
      rewrite (mbind_ok _ _ _ _ _ _ (get_events_ok _ _ _ Hs)). rewrite Hn.
      now rewrite (mbind_ok _ _ _ _ _ _ (lookup_obj_ok _ _ _ Ha)).
    + intros fuel arg kw. unfold fire_event.
      rewrite (mbind_ok _ _ _ _ _ _ (get_events_ok _ _ _ Hs1)). rewrite Hn.
      erewrite try_except_ok; [reflexivity|].
      unfold fire. rewrite (mbind_ok _ _ _ _ _ _ (lookup_obj_ok _ _ _ Ha1)).
      now rewrite (Event_fire_silenced _ _ _ _ fuel _ kw Ha1).
  - intros name a s d inner Hn Ha h1.
    assert (Hne : a <> self) by (intros ->; congruence).
    assert (Hs1 : h1 !! self = Some (OEventHandler evs))
      by (unfold h1; now rewrite lookup_insert_ne).
    assert (Ha1 : h1 !! a = Some (OOneTime true d inner))
      by (unfold h1; now rewrite lookup_insert_eq).
    split.
    + unfold silence_event, silence.
      rewrite (mbind_ok _ _ _ _ _ _ (get_events_ok _ _ _ Hs)). rewrite Hn.
      now rewrite (mbind_ok _ _ _ _ _ _ (lookup_obj_ok _ _ _ Ha)).
    + intros fuel arg kw. unfold fire_event.
      rewrite (mbind_ok _ _ _ _ _ _ (get_events_ok _ _ _ Hs1)). rewrite Hn.
      erewrite try_except_ok; [reflexivity|].
      unfold fire. rewrite (mbind_ok _ _ _ _ _ _ (lookup_obj_ok _ _ _ Ha1)).
      assert (Hget : get_OneTime a h1 = (Ok (true, d, inner), h1, [])).
      { unfold get_OneTime.
        now rewrite (mbind_ok _ _ _ _ _ _ (lookup_obj_ok _ _ _ Ha1)). }
      unfold OneTime_fire. now rewrite (mbind_ok _ _ _ _ _ _ Hget).
Qed.

End Firing.

Lemma bind_event_then_fire_event_witness :
  exists h2,
    (bind_event (env := sample_env) 0 "data" (Several [Fn 1; Fn 3]) None >>
     fire_event (env := sample_env) 4 0 "data" VNone []) h_handler
    = (Ok VNone, h2,
       [Called (Fn 1) (VRef 0) []; Called (Fn 3) (VRef 0) [];
        Async (VGenerator 0)]) /\
    h2 !! 3 = Some (OEvent false [Fn 1; Fn 3] 1).
Proof.
  destruct (bind_event_then_fire_event (env := sample_env) h_handler 0 _
              "data" 3 [] 0%Z (Several [Fn 1; Fn 3]) VNone [] 4
              eq_refl eq_refl eq_refl) as (h2 & t & E & _ & Ha).
  - intros hnd h' [->|[->|[]%elem_of_nil]%elem_of_cons]%elem_of_cons; exact I.
  - intros hnd h' o [->|[->|[]%elem_of_nil]%elem_of_cons]%elem_of_cons Ho;
      exact Ho.
  - simpl. lia.
  - exists h2. split; [|exact Ha]. rewrite E. vm_compute in E.
    now injection E as _ <-.
Defined.

Lemma silence_event_then_fire_event_witness :
  let h1 := snd (fst (silence_event 0 "start" h_handler)) in
  fire_event (env := sample_env) 4 0 "start" (VStr "v") [("key", VInt 1)] h1
  = (Ok VNone, h1, []).
Proof.
  intros h1.
  destruct (silence_event_then_fire_event (env := sample_env) h_handler 0 _
              eq_refl) as (_ & _ & H3).
  destruct (H3 "start" 1 false new_Deferred 2 eq_refl eq_refl) as [_ H].
  exact (H 4 (VStr "v") [("key", VInt 1)]).
Defined.

Section Escapes.
Context {env : Env}.

(** The loop of [Event.fire] when the handler after [pre] raises an error
    that is not an [Exception]: the handlers of [pre] and that one are
    called, the error leaves the loop. *)
Lemma fire_handlers_escape a s pre A post n x kw e :
  (forall hnd (h' : heap), hnd ∈ pre -> comes_back (fst (call hnd x kw h'))) ->
  (forall hnd (h' : heap) o,
     hnd ∈ pre -> h' !! a = Some o -> snd (call hnd x kw h') !! a = Some o) ->
  (forall h' : heap, fst (call A x kw h') = Raise e) ->
  is_Exception e = false ->
  forall fuel i (h : heap),
    h !! a = Some (OEvent s (pre ++ A :: post) n) ->
    i <= length pre -> length pre - i < fuel ->
    exists h' t,
      fire_handlers fuel a i x kw h = (Raise e, h', t) /\
      calls_of t = map (fun hnd => Called hnd x kw) (drop i pre ++ [A]) /\
      Logged (ExceptionWhileFiringEvent e) ∉ t.
Proof.
  intros Hback Hframe HA He.
  induction fuel as [|fuel IH]; intros i h Ha Hi Hf; [lia|].
  destruct (decide (i = length pre)) as [->|Hlt].
  - assert (Hl : (pre ++ A :: post) !! length pre = Some A)
      by (rewrite lookup_app_r by lia; now rewrite Nat.sub_diag).
    rewrite (fire_handlers_step _ _ _ _ _ _ _ _ _ _ Ha Hl).
    pose proof (HA h) as EA. destruct (call A x kw h) as [r h1].
    simpl in EA. subst r. rewrite He. eexists _, _.
    split; [reflexivity|].
    rewrite drop_all. split; [reflexivity|].
    intros [E|[]%elem_of_nil]%elem_of_cons. discriminate E.
  - assert (Hi' : i < length pre) by lia.
    destruct (lookup_lt_is_Some_2 pre i Hi') as [hnd Hh].
    assert (Hl : (pre ++ A :: post) !! i = Some hnd)
      by (now rewrite lookup_app_l by lia).
    assert (Hin : hnd ∈ pre) by (eapply list_elem_of_lookup_2; eauto).
    rewrite (fire_handlers_step _ _ _ _ _ _ _ _ _ _ Ha Hl).
    pose proof (Hback hnd h Hin) as Hb.
    pose proof (Hframe hnd h _ Hin Ha) as Ha1.
    destruct (call hnd x kw h) as [r h1]. simpl in Hb, Ha1.
    destruct (IH (S i) h1 Ha1) as (h' & t & E & Hc & Hlog); [lia|lia|].
    rewrite (drop_S _ _ _ Hh). simpl.
    destruct r as [g|e'|]; simpl in Hb; [|rewrite Hb|done]; rewrite E.
    + eexists _, _. split; [reflexivity|].
      split.
      * simpl. f_equal. unfold calls_of in *.
        rewrite List.filter_app, Hc. now destruct (isgenerator g).
      * intros [E'|[Hg|Ht]%elem_of_app]%elem_of_cons;
          [discriminate E'| |now apply Hlog].
        destruct (isgenerator g);
          [apply elem_of_cons in Hg as [E'|[]%elem_of_nil]; discriminate E'
          |now apply elem_of_nil in Hg].
    + eexists _, _. split; [reflexivity|].
      split; [simpl; f_equal; exact Hc|].
      intros [E'|[E'|Ht]%elem_of_cons]%elem_of_cons;
        [discriminate E'| |now apply Hlog].
      injection E' as ->. congruence.
Qed.

(** X12. An error that is not an [Exception] (a [BaseException] such as
    [KeyboardInterrupt]) raised by a bound callback is not caught by
    [Event.fire]: it is raised to the caller, and through [fire_event] to the
    caller of that.  It is not handed to the logger, and the callbacks bound
    after the failing one are not called; the callbacks bound before it
    are, in binding order.  Those are taken to come back and not to change
    this Event themselves. *)
Theorem BaseException_escapes_fire (h : heap) self evs name a pre A post n x
    kw e fuel :
  h !! self = Some (OEventHandler evs) -> evs !! name = Some a ->
  h !! a = Some (OEvent false (pre ++ A :: post) n) ->
  x <> VNone ->
  (forall hnd (h' : heap), hnd ∈ pre -> comes_back (fst (call hnd x kw h'))) ->
  (forall hnd (h' : heap) o,
     hnd ∈ pre -> h' !! a = Some o -> snd (call hnd x kw h') !! a = Some o) ->
  (forall h' : heap, fst (call A x kw h') = Raise e) ->
  is_Exception e = false ->
  length pre < fuel ->
  exists h' t,
    Event_fire fuel a x kw h = (Raise e, h', t) /\
    fire_event fuel self name x kw h = (Raise e, h', t) /\
    calls_of t = map (fun hnd => Called hnd x kw) (pre ++ [A]) /\
    Logged (ExceptionWhileFiringEvent e) ∉ t.
Proof.
  intros Hs Hn Ha Hx Hback Hframe HA He Hfuel.
  destruct (fire_handlers_escape a false pre A post (n + 1)%Z x kw e
              Hback Hframe HA He fuel 0
              (<[a := OEvent false (pre ++ A :: post) (n + 1)]> h))
    as (h' & t & E & Hc & Hlog);
    [now rewrite lookup_insert_eq|lia|lia|].
  assert (Efire : Event_fire fuel a x kw h = (Raise e, h', t)).
  { unfold Event_fire.
    rewrite (mbind_ok _ _ _ _ _ _ (lookup_obj_ok _ _ _ Ha)). cbn [negb].
    unfold mbind, store. now rewrite E. }
  exists h', t. split; [exact Efire|]. split; [|split; [exact Hc|exact Hlog]].
  unfold fire_event.
  assert (match x with VNone => VRef self | _ => x end = x) as ->
    by (now destruct x).
  rewrite (mbind_ok _ _ _ _ _ _ (get_events_ok _ _ _ Hs)). rewrite Hn.
  unfold try_except, fire.
  rewrite (mbind_ok _ _ _ _ _ _ (lookup_obj_ok _ _ _ Ha)). rewrite Efire.
  destruct e; try discriminate He. reflexivity.
Qed.

End Escapes.

Lemma BaseException_escapes_fire_witness :
  let h := <[0 := OEventHandler {["data" := 1]}]>
           (<[1 := OEvent false [Fn 1; Fn 6; Fn 2] 0]> ∅) in
  fire_event (env := binding_env) 4 0 "data" (VStr "x") [] h
  = (Raise (BaseExc "KeyboardInterrupt"),
     <[1 := OEvent false [Fn 1; Fn 6; Fn 2] 1]> h,
     [Called (Fn 1) (VStr "x") []; Called (Fn 6) (VStr "x") []]).
Proof.
  intros h.
  destruct (BaseException_escapes_fire (env := binding_env) h 0 _ "data" 1
              [Fn 1] (Fn 6) [Fn 2] 0%Z (VStr "x") []
              (BaseExc "KeyboardInterrupt") 4 eq_refl eq_refl eq_refl)
    as (h' & t & _ & E & _).
  - discriminate.
  - intros hnd h' [->|[]%elem_of_nil]%elem_of_cons. exact I.
  - intros hnd h' o [->|[]%elem_of_nil]%elem_of_cons Ho. exact Ho.
  - reflexivity.
  - reflexivity.
  - simpl. lia.
  - rewrite E. vm_compute in E. now injection E as <- <-.
Defined.

Section LiveIteration.
Context {env : Env}.

(** The loop of [Event.fire] over a list whose last handler [A] binds [D] to
    the Event it is called from: [D] is reached by the same loop. *)
Lemma fire_handlers_picks_up a s hs A D n x kw :
  (forall hnd (h' : heap),
     hnd ∈ hs ++ [D] -> comes_back (fst (call hnd x kw h'))) ->
  (forall hnd (h' : heap) o,
     hnd ∈ hs ++ [D] ->
     h' !! a = Some o -> snd (call hnd x kw h') !! a = Some o) ->
  (forall h' : heap,
     h' !! a = Some (OEvent s (hs ++ [A]) n) ->
     call A x kw h' = (Ok VNone, <[a := OEvent s (hs ++ [A; D]) n]> h')) ->
  forall fuel i (h : heap),
    h !! a = Some (OEvent s (hs ++ [A]) n) ->
    i <= length hs -> length hs + 2 - i < fuel ->
    exists h' t,
      fire_handlers fuel a i x kw h = (Ok tt, h', t) /\
      h' !! a = Some (OEvent s (hs ++ [A; D]) n) /\
      calls_of t = map (fun hnd => Called hnd x kw) (drop i hs ++ [A; D]).
Proof.
  intros Hback Hframe HA.
  induction fuel as [|fuel IH]; intros i h Ha Hi Hf; [lia|].
  destruct (decide (i = length hs)) as [->|Hlt].
  - assert (Hl : (hs ++ [A]) !! length hs = Some A)
      by (rewrite lookup_app_r by lia; now rewrite Nat.sub_diag).
    rewrite (fire_handlers_step _ _ _ _ _ _ _ _ _ _ Ha Hl).
    rewrite (HA h Ha). cbn [isgenerator].
    set (h1 := <[a := OEvent s (hs ++ [A; D]) n]> h).
    assert (Ha1 : h1 !! a = Some (OEvent s (hs ++ [A; D]) n))
      by (unfold h1; now rewrite lookup_insert_eq).
    destruct fuel as [|fuel]; [lia|].
    assert (Hl1 : (hs ++ [A; D]) !! S (length hs) = Some D).
    { rewrite lookup_app_r by lia.
      now replace (S (length hs) - length hs) with 1 by lia. }
    rewrite (fire_handlers_step _ _ _ _ _ _ _ _ _ _ Ha1 Hl1).
    assert (HD : D ∈ hs ++ [D])
      by (apply elem_of_app; right; apply list_elem_of_singleton; reflexivity).
    pose proof (Hback D h1 HD) as Hb.
    pose proof (Hframe D h1 _ HD Ha1) as Ha2.
    destruct (call D x kw h1) as [r h2]. simpl in Hb, Ha2.
    destruct fuel as [|fuel]; [lia|].
    assert (Hl2 : (hs ++ [A; D]) !! S (S (length hs)) = None).
    { apply lookup_ge_None. rewrite length_app. simpl. lia. }
    rewrite (fire_handlers_end _ _ _ _ _ _ _ _ _ Ha2 Hl2).
    rewrite drop_all.
    destruct r as [g|e|]; simpl in Hb; [|rewrite Hb|done].
    + eexists _, _. split; [reflexivity|]. split; [exact Ha2|].
      now destruct (isgenerator g).
    + eexists _, _. split; [reflexivity|]. split; [exact Ha2|reflexivity].
  - assert (Hi' : i < length hs) by lia.
    destruct (lookup_lt_is_Some_2 hs i Hi') as [hnd Hh].
    assert (Hl : (hs ++ [A]) !! i = Some hnd)
      by (now rewrite lookup_app_l by lia).
    assert (Hin : hnd ∈ hs ++ [D])
      by (apply elem_of_app; left; eapply list_elem_of_lookup_2; eauto).
    rewrite (fire_handlers_step _ _ _ _ _ _ _ _ _ _ Ha Hl).
    pose proof (Hback hnd h Hin) as Hb.
    pose proof (Hframe hnd h _ Hin Ha) as Ha1.
    destruct (call hnd x kw h) as [r h1]. simpl in Hb, Ha1.
    destruct (IH (S i) h1 Ha1) as (h' & t & E & Ha' & Hc); [lia|lia|].
    rewrite (drop_S _ _ _ Hh). simpl.
    destruct r as [g|e|]; simpl in Hb; [|rewrite Hb|done]; rewrite E.
    + eexists _, _. split; [reflexivity|]. split; [exact Ha'|].
      simpl. f_equal. unfold calls_of in *.
      rewrite List.filter_app, Hc. now destruct (isgenerator g).
    + eexists _, _. split; [reflexivity|]. split; [exact Ha'|].
      simpl. f_equal. exact Hc.
Qed.

(** X13. [Event.fire] walks the list of handlers as it is while it fires.
    When the last bound callback [A], once called, binds a further callback
    [D] to the same Event, that very [fire] calls [D] too, after [A]: the
    callbacks called are those bound before, [A], then [D]; [D] stays bound
    and the fire count has moved by one.  The other callbacks are taken to
    come back and not to change this Event themselves. *)
Theorem fire_calls_handler_bound_while_firing (h : heap) a hs A D n x kw
    fuel :
  h !! a = Some (OEvent false (hs ++ [A]) n) ->
  (forall hnd (h' : heap),
     hnd ∈ hs ++ [D] -> comes_back (fst (call hnd x kw h'))) ->
  (forall hnd (h' : heap) o,
     hnd ∈ hs ++ [D] ->
     h' !! a = Some o -> snd (call hnd x kw h') !! a = Some o) ->
  (forall (h' : heap) m,
     h' !! a = Some (OEvent false (hs ++ [A]) m) ->
     call A x kw h' = (Ok VNone, <[a := OEvent false (hs ++ [A; D]) m]> h')) ->
  length hs + 2 < fuel ->
  exists h' t,
    Event_fire fuel a x kw h = (Ok VNone, h', t) /\
    h' !! a = Some (OEvent false (hs ++ [A; D]) (n + 1)) /\
    calls_of t = map (fun hnd => Called hnd x kw) (hs ++ [A; D]).
Proof.
  intros Ha Hback Hframe HA Hfuel.
  destruct (fire_handlers_picks_up a false hs A D (n + 1)%Z x kw Hback Hframe
              (fun h' => HA h' (n + 1)%Z) fuel 0
              (<[a := OEvent false (hs ++ [A]) (n + 1)]> h))
    as (h' & t & E & Ha' & Hc); [now rewrite lookup_insert_eq|lia|lia|].
  exists h', t. split; [|split; [exact Ha'|exact Hc]].
  unfold Event_fire.
  rewrite (mbind_ok _ _ _ _ _ _ (lookup_obj_ok _ _ _ Ha)). cbn [negb].
  unfold mbind, store, ret. rewrite E. now rewrite app_nil_r.
Qed.

(** The loop of [Event.fire] over a list that ends with a handler [A] which
    binds itself again at each call: the end of the list is never reached. *)
Lemma fire_handlers_never_ends a hs A x kw :
  (forall hnd (h' : heap), hnd ∈ hs -> comes_back (fst (call hnd x kw h'))) ->
  (forall hnd (h' : heap) o,
     hnd ∈ hs -> h' !! a = Some o -> snd (call hnd x kw h') !! a = Some o) ->
  (forall (h' : heap) s l m,
     h' !! a = Some (OEvent s l m) ->
     call A x kw h' = (Ok VNone, <[a := OEvent s (l ++ [A]) m]> h')) ->
  forall fuel i k s n (h : heap),
    h !! a = Some (OEvent s (hs ++ replicate (S k) A) n) ->
    i <= length hs + k ->
    exists h' t, fire_handlers fuel a i x kw h = (OutOfFuel, h', t).
Proof.
  intros Hback Hframe HA.
  induction fuel as [|fuel IH]; intros i k s n h Ha Hi;
    [eexists _, _; reflexivity|].
  destruct (decide (i < length hs)) as [Hlt|Hge].
  - destruct (lookup_lt_is_Some_2 hs i Hlt) as [hnd Hh].
    assert (Hl : (hs ++ replicate (S k) A) !! i = Some hnd)
      by (now rewrite lookup_app_l by lia).
    assert (Hin : hnd ∈ hs) by (eapply list_elem_of_lookup_2; eauto).
    rewrite (fire_handlers_step _ _ _ _ _ _ _ _ _ _ Ha Hl).
    pose proof (Hback hnd h Hin) as Hb.
    pose proof (Hframe hnd h _ Hin Ha) as Ha1.
    destruct (call hnd x kw h) as [r h1]. simpl in Hb, Ha1.
    destruct (IH (S i) k s n h1 Ha1) as (h' & t & E); [lia|].
    destruct r as [g|e|]; simpl in Hb; [|rewrite Hb|done]; rewrite E;
      eexists _, _; reflexivity.
  - assert (Hl : (hs ++ replicate (S k) A) !! i = Some A).
    { rewrite lookup_app_r by lia. apply lookup_replicate_2. lia. }
    rewrite (fire_handlers_step _ _ _ _ _ _ _ _ _ _ Ha Hl).
    rewrite (HA h _ _ _ Ha). cbn [isgenerator].
    assert (Ha1 : <[a := OEvent s ((hs ++ replicate (S k) A) ++ [A]) n]> h
                  !! a = Some (OEvent s (hs ++ replicate (S (S k)) A) n)).
    { rewrite lookup_insert_eq. do 2 f_equal. rewrite <- app_assoc. f_equal.
      symmetry. apply (replicate_cons_app (S k) A). }
    destruct (IH (S i) (S k) s n _ Ha1) as (h' & t & E); [lia|].
    rewrite E. eexists _, _; reflexivity.
Qed.

(** X14. A callback that binds itself to the Event it is called from keeps
    [Event.fire] from returning: the loop over the handlers finds one more
    handler each time it reaches the end of the list.  In the model no
    amount of fuel is enough for the call. *)
Theorem fire_with_self_binding_handler_never_returns (h : heap) a hs A n x kw :
  h !! a = Some (OEvent false (hs ++ [A]) n) ->
  (forall hnd (h' : heap), hnd ∈ hs -> comes_back (fst (call hnd x kw h'))) ->
  (forall hnd (h' : heap) o,
     hnd ∈ hs -> h' !! a = Some o -> snd (call hnd x kw h') !! a = Some o) ->
  (forall (h' : heap) s l m,
     h' !! a = Some (OEvent s l m) ->
     call A x kw h' = (Ok VNone, <[a := OEvent s (l ++ [A]) m]> h')) ->
  forall fuel, exists h' t, Event_fire fuel a x kw h = (OutOfFuel, h', t).
Proof.
  intros Ha Hback Hframe HA fuel.
  destruct (fire_handlers_never_ends a hs A x kw Hback Hframe HA fuel 0 0
              false (n + 1)%Z (<[a := OEvent false (hs ++ [A]) (n + 1)]> h))
    as (h' & t & E); [now rewrite lookup_insert_eq|lia|].
  exists h', t. unfold Event_fire.
  rewrite (mbind_ok _ _ _ _ _ _ (lookup_obj_ok _ _ _ Ha)). cbn [negb].
  unfold mbind, store. now rewrite E.
Qed.

(** X15. The fire count counts the calls of [fire].  On an Event that is not
    silenced, after [k] calls of [fire(arg)], [fired()] answers the count it
    had before plus [k], and every bound callback has been called [k] times:
    the calls are the list of handlers, in binding order, [k] times over.
    The callbacks are taken to come back and not to change this Event
    themselves. *)
Theorem fired_counts_the_fires (a : addr) hs x kw fuel :
  (forall hnd (h' : heap), hnd ∈ hs -> comes_back (fst (call hnd x kw h'))) ->
  (forall hnd (h' : heap) o,
     hnd ∈ hs -> h' !! a = Some o -> snd (call hnd x kw h') !! a = Some o) ->
  length hs < fuel ->
  forall k n (h : heap),
    h !! a = Some (OEvent false hs n) ->
    exists h' t,
      fire_times fuel a x kw k h = (Ok tt, h', t) /\
      Event_fired a h' = (Ok (n + Z.of_nat k)%Z, h', []) /\
      calls_of t
      = concat (replicate k (map (fun hnd => Called hnd x kw) hs)).
Proof.
  intros Hback Hframe Hfuel.
  induction k as [|k IH]; intros n h Ha.
  - exists h, []. split; [reflexivity|]. split; [|reflexivity].
    unfold Event_fired.
    rewrite (mbind_ok _ _ _ _ _ _ (lookup_obj_ok _ _ _ Ha)).
    unfold ret. do 3 f_equal. lia.
  - destruct (Event_fire_all h a hs n x kw fuel Ha Hback Hframe Hfuel)
      as (h1 & t1 & E1 & Ha1 & Hc1).
    destruct (IH (n + 1)%Z h1 Ha1) as (h' & t & E & Hf & Hc).
    exists h', (t1 ++ t). split; [|split].
    + cbn [fire_times]. unfold mbind at 1. now rewrite E1, E.
    + rewrite Hf. do 3 f_equal. lia.
    + unfold calls_of in *. rewrite List.filter_app, Hc1, Hc. reflexivity.
Qed.

End LiveIteration.


Lemma fire_calls_handler_bound_while_firing_witness :
  let h := <[0 := OEvent false [Fn 2; Fn 5] 0]> (∅ : heap) in
  Event_fire (env := binding_env) 5 0 (VStr "x") [] h
  = (Ok VNone, <[0 := OEvent false [Fn 2; Fn 5; Fn 1] 1]> h,
     [Called (Fn 2) (VStr "x") []; Called (Fn 5) (VStr "x") [];
      Called (Fn 1) (VStr "x") []]).
Proof.
  intros h.
  destruct (fire_calls_handler_bound_while_firing (env := binding_env) h 0
              [Fn 2] (Fn 5) (Fn 1) 0%Z (VStr "x") [] 5 eq_refl)
    as (h' & t & E & _).
  - intros hnd h' [->|[->|[]%elem_of_nil]%elem_of_cons]%elem_of_cons;
      exact I.
  - intros hnd h' o [->|[->|[]%elem_of_nil]%elem_of_cons]%elem_of_cons Ho;
      exact Ho.
  - intros h' m Hm. simpl. change (h' !! 0) with (h' !! (0 : addr)).
    now rewrite Hm.
  - simpl. lia.
  - rewrite E. vm_compute in E. now injection E as <- <-.
Defined.

Lemma fire_with_self_binding_handler_never_returns_witness :
  let h := <[0 := OEvent false [Fn 2; Fn 7] 0]> (∅ : heap) in
  exists h' t,
    Event_fire (env := binding_env) 1000 0 (VStr "x") [] h
    = (OutOfFuel, h', t).
Proof.
  intros h.
  apply (fire_with_self_binding_handler_never_returns (env := binding_env) h 0
           [Fn 2] (Fn 7) 0%Z (VStr "x") [] eq_refl).
  - intros hnd h' [->|[]%elem_of_nil]%elem_of_cons. exact I.
  - intros hnd h' o [->|[]%elem_of_nil]%elem_of_cons Ho. exact Ho.
  - intros h' s l m Hm. simpl. change (h' !! 0) with (h' !! (0 : addr)).
    now rewrite Hm.
Defined.

Lemma fired_counts_the_fires_witness :
  let h := <[1 := OEvent false [Fn 1; Fn 2] 4]> (∅ : heap) in
  exists h' t,
    fire_times (env := sample_env) 3 1 (VStr "x") [] 3 h = (Ok tt, h', t) /\
    Event_fired 1 h' = (Ok 7%Z, h', []) /\
    calls_of t
    = concat (replicate 3 [Called (Fn 1) (VStr "x") [];
                           Called (Fn 2) (VStr "x") []]).
Proof.
  intros h.
  assert (Hback : forall hnd (h' : heap),
            hnd ∈ [Fn 1; Fn 2] ->
            comes_back (fst (call (Env := sample_env) hnd (VStr "x") [] h'))).
  { intros hnd h' [->|[->|[]%elem_of_nil]%elem_of_cons]%elem_of_cons;
      simpl; auto. }
  assert (Hframe : forall hnd (h' : heap) o,
            hnd ∈ [Fn 1; Fn 2] -> h' !! 1 = Some o ->
            snd (call (Env := sample_env) hnd (VStr "x") [] h') !! 1
            = Some o).
  { intros hnd h' o [->|[->|[]%elem_of_nil]%elem_of_cons]%elem_of_cons Ho;
      exact Ho. }
  assert (Hfuel : length [Fn 1; Fn 2] < 3) by (simpl; lia).
  destruct (fired_counts_the_fires (env := sample_env) 1 [Fn 1; Fn 2]
              (VStr "x") [] 3 Hback Hframe Hfuel 3 4%Z h eq_refl)
    as (h' & t & E & Hf & Hc).
  exists h', t. split; [exact E|]. split; [exact Hf|exact Hc].
Defined.

(** *** EventHandler.__init__, the whole dict *)

(** Filling the dict keeps it free of sharing: when no two names share a
    dispatcher and every dispatcher is in the store, the same holds after,
    and the dispatcher of every name of the list was not in the store
    before. *)
Lemma update_events_distinct make P :
  makes make P ->
  forall names events (h : heap),
    (forall n a, events !! n = Some a -> is_Some (h !! a)) ->
    (forall n1 n2 a,
       events !! n1 = Some a -> events !! n2 = Some a -> n1 = n2) ->
    exists events' h',
      update_events make names events h = (Ok events', h', []) /\
      (forall x ox, h !! x = Some ox -> h' !! x = Some ox) /\
      (forall n a, events' !! n = Some a -> is_Some (h' !! a)) /\
      (forall n1 n2 a,
         events' !! n1 = Some a -> events' !! n2 = Some a -> n1 = n2) /\
      (forall name, name ∈ names ->
         exists a o, events' !! name = Some a /\ h !! a = None /\
                     h' !! a = Some o /\ P o) /\
      (forall name, name ∉ names -> events' !! name = events !! name).
Proof.
  intros Hmake. induction names as [|name names IH]; intros events h Hdom Hinj;
    simpl.
  - exists events, h. split; [reflexivity|]. split; [auto|].
    split; [exact Hdom|]. split; [exact Hinj|].
    split; [|auto]. intros name H. inversion H.
  - destruct (Hmake h) as (a & h1 & o & Em & Hfresh & Ha & HP & Hgrow).
    destruct (IH (<[name := a]> events) h1)
      as (events' & h' & Eu & Hgrow' & Hdom' & Hinj' & Hin & Hout).
    { intros n b Hn. apply lookup_insert_Some in Hn as [[_ <-]|[_ Hn]];
        [now rewrite Ha|].
      destruct (Hdom _ _ Hn) as [ob Hb]. rewrite (Hgrow _ _ Hb). eauto. }
    { intros n1 n2 b H1 H2.
      apply lookup_insert_Some in H1 as [[<- <-]|[Hn1 H1]];
        apply lookup_insert_Some in H2 as [[<- E2]|[Hn2 H2]]; auto.
      - destruct (Hdom _ _ H2) as [ob Hb]. congruence.
      - subst b. destruct (Hdom _ _ H1) as [ob Hb]. congruence.
      - eapply Hinj; eauto. }
    exists events', h'. unfold mbind. rewrite Em, Eu.
    split; [reflexivity|]. split; [auto|]. split; [exact Hdom'|].
    split; [exact Hinj'|]. split.
    + intros name0 H0.
      destruct (decide (name0 ∈ names)) as [Hn|Hn].
      * destruct (Hin _ Hn) as (b & ob & Eb & Hb1 & Hb & HPb).
        exists b, ob. split; [exact Eb|]. split; [|auto].
        destruct (h !! b) as [o0|] eqn:E0; [|reflexivity].
        rewrite (Hgrow _ _ E0) in Hb1. discriminate.
      * apply elem_of_cons in H0 as [->|?]; [|done].
        exists a, o. rewrite (Hout _ Hn), lookup_insert_eq. auto.
    + intros name0 H0. apply not_elem_of_cons in H0 as [Hne Hn].
      now rewrite (Hout _ Hn), lookup_insert_ne.
Qed.

(** X16. A new [EventHandler] knows the names given as one-time or
    many-times events, class-level or passed by the caller, and no other
    name.  Every name has a dispatcher of its own: no two names share one,
    and no dispatcher is an object that was there before or the handler
    itself.  A many-times name has an [Event] with no handler and a fire
    count of zero, any other name a [OneTime] that is not silenced.  The
    objects there were are left as they are. *)
Theorem new_EventHandler_gives_each_name_its_own (h : heap)
    (ONE_TIME_EVENTS MANY_TIMES_EVENTS : list string)
    (one_time_events many_times_events : option (list string)) :
  let one := event_names ONE_TIME_EVENTS one_time_events in
  let many := event_names MANY_TIMES_EVENTS many_times_events in
  exists self h' events,
    new_EventHandler ONE_TIME_EVENTS MANY_TIMES_EVENTS
                     one_time_events many_times_events h
    = (Ok self, h', []) /\
    h !! self = None /\
    h' !! self = Some (OEventHandler events) /\
    (forall name, is_Some (events !! name) <-> name ∈ one \/ name ∈ many) /\
    (forall n1 n2 a,
       events !! n1 = Some a -> events !! n2 = Some a -> n1 = n2) /\
    (forall name a,
       events !! name = Some a ->
       h !! a = None /\ a <> self /\
       if decide (name ∈ many) then h' !! a = Some (OEvent false [] 0)
       else exists inner, h' !! a = Some (OOneTime false new_Deferred inner)) /\
    (forall x ox, h !! x = Some ox -> h' !! x = Some ox).
Proof.
  intros one many.
  set (self := fresh (dom h)). set (h0 := <[self := OEventHandler ∅]> h).
  assert (Hself0 : h0 !! self = Some (OEventHandler ∅))
    by (unfold h0; now rewrite lookup_insert_eq).
  assert (Hfresh : h !! self = None) by apply fresh_lookup.
  assert (Hold : forall a, h0 !! a = None -> h !! a = None /\ a <> self).
  { intros a Ha. assert (a <> self) by (intros ->; congruence).
    split; [|done]. unfold h0 in Ha. now rewrite lookup_insert_ne in Ha. }
  destruct (update_events_distinct _ _ OneTime___init___makes one ∅ h0)
    as (events1 & h1 & E1 & Hgrow1 & Hdom1 & Hinj1 & Hin1 & Hout1).
  { intros n a Hn. now rewrite lookup_empty in Hn. }
  { intros n1 n2 a Hn. now rewrite lookup_empty in Hn. }
  destruct (update_events_distinct _ _ Event___init___makes many events1 h1
              Hdom1 Hinj1)
    as (events2 & h2 & E2 & Hgrow2 & Hdom2 & Hinj2 & Hin2 & Hout2).
  exists self, (<[self := OEventHandler events2]> h2), events2.
  split; [|split; [exact Hfresh|split; [now rewrite lookup_insert_eq|]]].
  { unfold new_EventHandler, EventHandler___init__, alloc, store, mbind, ret.
    fold self. fold h0. fold one. fold many. now rewrite E1, E2. }
  split; [|split; [exact Hinj2|split]].
  - intros name. split.
    + intros Hn. destruct (decide (name ∈ many)) as [Hm|Hm]; [now right|].
      left. destruct (decide (name ∈ one)) as [Ho|Ho]; [done|].
      rewrite (Hout2 _ Hm), (Hout1 _ Ho), lookup_empty in Hn.
      now destruct Hn.
    + intros Hn. destruct (decide (name ∈ many)) as [Hm|Hm].
      * destruct (Hin2 _ Hm) as (a & o & -> & _). eauto.
      * destruct Hn as [Ho|Hn]; [|done].
        destruct (Hin1 _ Ho) as (a & o & Ea & _).
        rewrite (Hout2 _ Hm), Ea. eauto.
  - intros name a Hn. destruct (decide (name ∈ many)) as [Hm|Hm].
    + destruct (Hin2 _ Hm) as (a' & o & Ea & Hnew & Ha & ->).
      assert (a' = a) as -> by congruence.
      assert (H0 : h0 !! a = None).
      { destruct (h0 !! a) as [o0|] eqn:E0; [|reflexivity].
        rewrite (Hgrow1 _ _ E0) in Hnew. discriminate. }
      destruct (Hold _ H0) as [Hh Hne].
      split; [exact Hh|]. split; [exact Hne|].
      now rewrite lookup_insert_ne by auto.
    + rewrite (Hout2 _ Hm) in Hn.
      destruct (decide (name ∈ one)) as [Ho|Ho];
        [|now rewrite (Hout1 _ Ho), lookup_empty in Hn].
      destruct (Hin1 _ Ho) as (a' & o & Ea & H0 & Ha & inner & ->).
      assert (a' = a) as -> by congruence.
      destruct (Hold _ H0) as [Hh Hne].
      split; [exact Hh|]. split; [exact Hne|].
      exists inner. rewrite lookup_insert_ne by auto. now apply Hgrow2.
  - intros x ox Hx.
    assert (x <> self) by (intros ->; congruence).
    rewrite lookup_insert_ne by auto. apply Hgrow2, Hgrow1.
    unfold h0. now rewrite lookup_insert_ne by auto.
Qed.

(** *** EventHandler.bind_events *)

Section BindEvents.
Context {env : Env}.

(** The loop of [bind_events] over the names [l] of the handler. *)
Lemma bind_events_loop self evs (kw : gmap string callbacks) :
  (forall n1 n2 a, evs !! n1 = Some a -> evs !! n2 = Some a -> n1 = n2) ->
  forall l, NoDup l -> (forall name, name ∈ l -> is_Some (evs !! name)) ->
  forall h : heap,
    h !! self = Some (OEventHandler evs) ->
    (forall name a,
       name ∈ l -> evs !! name = Some a -> is_Some (kw !! name) ->
       exists s hs n, h !! a = Some (OEvent s hs n)) ->
    exists h',
      for_each l (fun name =>
        match kw !! name with
        | Some cbk => bind_event self name cbk None
        | None => ret tt
        end) h = (Ok tt, h', []) /\
      h' !! self = Some (OEventHandler evs) /\
      (forall name a s hs n,
         evs !! name = Some a -> h !! a = Some (OEvent s hs n) ->
         h' !! a
         = Some (OEvent s (hs ++ if decide (name ∈ l)
                                 then from_option cbks_of [] (kw !! name)
                                 else []) n)) /\
      (forall x,
         (forall name, name ∈ l -> evs !! name = Some x -> kw !! name = None) ->
         h' !! x = h !! x).
Proof.
  intros Hinj. induction l as [|name0 l IH]; intros Hnd Hknown h Hs Hev.
  - exists h. split; [reflexivity|]. split; [exact Hs|]. split; [|auto].
    intros name a s hs n _ Ha. rewrite Ha.
    destruct (decide (name ∈ [])) as [Hin|_]; [inversion Hin|].
    now rewrite app_nil_r.
  - apply NoDup_cons in Hnd as [Hnotin Hnd]. cbn [for_each].
    assert (Hknown' : forall name, name ∈ l -> is_Some (evs !! name))
      by (intros name Hin; apply Hknown; now apply list_elem_of_further).
    destruct (Hknown name0 (list_elem_of_here _ _)) as [a0 Ea0].
    assert (Hcons : forall name,
              name <> name0 ->
              (if decide (name ∈ name0 :: l)
               then from_option cbks_of [] (kw !! name) else [])
              = (if decide (name ∈ l)
                 then from_option cbks_of [] (kw !! name) else [])).
    { intros name Hnn.
      destruct (decide (name ∈ l)) as [Hin|Hin];
        destruct (decide (name ∈ name0 :: l)) as [Hin'|Hin'];
        try reflexivity.
      - exfalso. apply Hin'. now apply list_elem_of_further.
      - exfalso. apply elem_of_cons in Hin' as [?|?]; done. }
    assert (Hhead : forall A (x y : A),
              (if decide (name0 ∈ name0 :: l) then x else y) = x).
    { intros A x y. destruct (decide (name0 ∈ name0 :: l)) as [_|Hno];
        [reflexivity|]. exfalso. apply Hno, list_elem_of_here. }
    assert (Htail : forall A (x y : A),
              (if decide (name0 ∈ l) then x else y) = y).
    { intros A x y. now destruct (decide (name0 ∈ l)). }
    destruct (kw !! name0) as [c|] eqn:E0.
    + destruct (Hev name0 a0) as (s0 & hs0 & n0 & Ha0);
        [apply list_elem_of_here|exact Ea0|rewrite E0; eauto|].
      assert (Hne : a0 <> self) by (intros ->; congruence).
      set (h1 := <[a0 := OEvent s0 (hs0 ++ cbks_of c) n0]> h).
      assert (Hother : forall name a,
                name <> name0 -> evs !! name = Some a -> a <> a0).
      { intros name a Hnn Ha ->. apply Hnn. eapply Hinj; eauto. }
      destruct (IH Hnd Hknown' h1) as (h' & E & Hs' & Hb & Hf).
      { unfold h1. now rewrite lookup_insert_ne. }
      { intros name a Hin Ha Hk.
        destruct (Hev name a) as (s & hs & n & Hh);
          [now apply list_elem_of_further|exact Ha|exact Hk|].
        exists s, hs, n. unfold h1.
        rewrite lookup_insert_ne; [exact Hh|].
        apply not_eq_sym. eapply Hother; eauto. intros ->. done. }
      exists h'.
      rewrite (mbind_ok _ _ _ _ _ _
                 (bind_event_known_Event _ _ _ _ _ _ _ _ c Hs Ea0 Ha0)).
      fold h1. rewrite E. split; [reflexivity|]. split; [exact Hs'|]. split.
      * intros name a s hs n Ha Hh.
        destruct (decide (name = name0)) as [->|Hnn].
        -- assert (a = a0) as -> by congruence.
           assert (s = s0 /\ hs = hs0 /\ n = n0) as (-> & -> & ->)
             by (rewrite Ha0 in Hh; now injection Hh as -> -> ->).
           rewrite (Hb name0 a0 s0 (hs0 ++ cbks_of c) n0 Ea0)
             by (unfold h1; now rewrite lookup_insert_eq).
           rewrite Htail, Hhead, E0. cbn. now rewrite app_nil_r.
        -- assert (a <> a0) by (eapply Hother; eauto).
           rewrite (Hb name a s hs n Ha)
             by (unfold h1; now rewrite lookup_insert_ne).
           now rewrite (Hcons _ Hnn).
      * intros x Hx.
        assert (x <> a0).
        { intros ->.
          rewrite (Hx name0 (list_elem_of_here _ _) Ea0) in E0.
          discriminate. }
        rewrite Hf.
        -- unfold h1. now rewrite lookup_insert_ne.
        -- intros name Hin. apply Hx. now apply list_elem_of_further.
    + destruct (IH Hnd Hknown' h Hs) as (h' & E & Hs' & Hb & Hf).
      { intros name a Hin. apply Hev. now apply list_elem_of_further. }
      exists h'. unfold mbind at 1, ret at 1. rewrite E.
      split; [reflexivity|]. split; [exact Hs'|]. split.
      * intros name a s hs n Ha Hh. rewrite (Hb name a s hs n Ha Hh).
        destruct (decide (name = name0)) as [->|Hnn];
          [|now rewrite (Hcons _ Hnn)].
        now rewrite Htail, Hhead, E0.
      * intros x Hx. apply Hf.
        intros name Hin. apply Hx. now apply list_elem_of_further.
Qed.

(** X17. [bind_events] binds to the names the handler knows and to no
    other.  On a handler where no two names share a dispatcher and the names
    found in the keyword arguments are repeatable Events, every such Event
    gets the callbacks given under its name appended to its handlers, in
    order; the dict of the handler is as before, so a keyword naming an
    event the handler does not know registers nothing (unlike [bind_event]);
    every other object is left as it is. *)
Theorem bind_events_binds_known_names_only (h : heap) self evs
    (kw : gmap string callbacks) :
  h !! self = Some (OEventHandler evs) ->
  (forall n1 n2 a, evs !! n1 = Some a -> evs !! n2 = Some a -> n1 = n2) ->
  (forall name a,
     evs !! name = Some a -> is_Some (kw !! name) ->
     exists s hs n, h !! a = Some (OEvent s hs n)) ->
  exists h',
    bind_events self kw h = (Ok tt, h', []) /\
    h' !! self = Some (OEventHandler evs) /\
    (forall name a s hs n,
       evs !! name = Some a -> h !! a = Some (OEvent s hs n) ->
       h' !! a
       = Some (OEvent s (hs ++ from_option cbks_of [] (kw !! name)) n)) /\
    (forall x,
       (forall name, evs !! name = Some x -> kw !! name = None) ->
       h' !! x = h !! x).
Proof.
  intros Hs Hinj Hev.
  assert (Hin : forall name,
            name ∈ (map_to_list evs).*1 <-> is_Some (evs !! name)).
  { intros name. rewrite list_elem_of_fmap. split.
    - intros ([n a] & -> & H%elem_of_map_to_list). eauto.
    - intros [a Ha]. exists (name, a). split; [reflexivity|].
      now apply elem_of_map_to_list. }
  destruct (bind_events_loop self evs kw Hinj (map_to_list evs).*1
              (NoDup_fst_map_to_list evs) (fun name => proj1 (Hin name)) h Hs)
    as (h' & E & Hs' & Hb & Hf).
  { intros name a _. apply Hev. }
  exists h'. split; [|split; [exact Hs'|split]].
  - unfold bind_events.
    rewrite (mbind_ok _ _ _ _ _ _ (get_events_ok _ _ _ Hs)). now rewrite E.
  - intros name a s hs n Ha Hh. rewrite (Hb name a s hs n Ha Hh).
    destruct (decide (name ∈ (map_to_list evs).*1)) as [_|Hno];
      [reflexivity|].
    exfalso. apply Hno, Hin. eauto.
  - intros x Hx. apply Hf. intros name _. apply Hx.
Qed.

End BindEvents.

Lemma bind_events_binds_known_names_only_witness :
  let kw : gmap string callbacks :=
    <["data" := Several [Fn 1; Fn 2]]> {["extra" := Single (Fn 3)]} in
  exists h',
    bind_events (env := sample_env) 0 kw h_handler = (Ok tt, h', []) /\
    h' !! 0 = h_handler !! 0 /\
    h' !! 3 = Some (OEvent false [Fn 1; Fn 2] 0) /\
    h' !! 1 = h_handler !! 1 /\
    h' !! 4 = None.
Proof.
  intros kw.
  destruct (bind_events_binds_known_names_only (env := sample_env) h_handler 0
              (<["start" := 1]> (<["data" := 3]> ∅)) kw eq_refl)
    as (h' & E & Hs' & Hb & Hf).
  - intros n1 n2 a H1 H2.
    repeat match goal with
    | H : <[_ := _]> _ !! _ = Some _ |- _ =>
        apply lookup_insert_Some in H as [[? ?]|[? H]]
    | H : ∅ !! _ = Some _ |- _ => now rewrite lookup_empty in H
    end; congruence.
  - intros name a Ha Hk.
    apply lookup_insert_Some in Ha as [[<- <-]|[? Ha]].
    + vm_compute in Hk. now destruct Hk.
    + apply lookup_insert_Some in Ha as [[<- <-]|[_ Ha]]; [|done].
      exists false, [], 0%Z. reflexivity.
  - exists h'. split; [exact E|]. split; [exact Hs'|]. split; [|split].
    + exact (Hb "data" 3 false [] 0%Z eq_refl eq_refl).
    + apply Hf. intros name Ha.
      apply lookup_insert_Some in Ha as [[<- _]|[? Ha]]; [reflexivity|].
      apply lookup_insert_Some in Ha as [[_ ?]|[_ Ha]]; done.
    + apply (Hf 4). intros name Ha.
      apply lookup_insert_Some in Ha as [[_ ?]|[? Ha]]; [done|].
      apply lookup_insert_Some in Ha as [[_ ?]|[_ Ha]]; done.
Defined.

End EventsFacts.
